(** * JustTuner: the YIN pitch detector and the frequency smoother

    A shallow embedding of [yin-algorithm.js] (detectPitch and its helpers)
    and of the smoothing step of [app.js] (detectionLoop, average).

    JavaScript numbers are IEEE 754 binary64 values; they are modelled by
    [spec_float] with the operations of [SpecFloat] at precision 53 and
    maximal exponent 1024.  A [Float32Array] is a list of numbers each of
    which went through the binary32 rounding of a typed-array store; a read
    outside an array is [undefined].  Lags and indices are integers.

    The definitions come first: numbers, arrays and loops, the program, the
    instrumented search, the reference definitions after the specification
    and the sample inputs.  The lemmas and the claims C1 to C10 follow. *)

From Stdlib Require Import String.
From Stdlib Require Import ZArith QArith List Bool Lia Lqa SpecFloat.
Import ListNotations.

Local Open Scope Z_scope.

(* ================================================================== *)
(** * Numbers *)

Module Num.

Definition number := spec_float.

Definition prec := 53.
Definition emax := 1024.

Definition NaN : number := S754_nan.
Definition zero : number := S754_zero false.

Definition fadd : number -> number -> number := SFadd prec emax.
Definition fsub : number -> number -> number := SFsub prec emax.
Definition fmul : number -> number -> number := SFmul prec emax.
Definition fdiv : number -> number -> number := SFdiv prec emax.

(** [<], [<=] and [===] on numbers; all three are false on NaN. *)
Definition flt : number -> number -> bool := SFltb.
Definition fle : number -> number -> bool := SFleb.
Definition feq : number -> number -> bool := SFeqb.

(** The number nearest to an integer (exact below 2^53). *)
Definition ofZ (z : Z) : number := binary_normalize prec emax z 0 false.

Definition one : number := ofZ 1.
Definition two : number := ofZ 2.
(** The literal [0.5]. *)
Definition half : number := fdiv one two.
(** The literal [0.1]: the double nearest to one tenth. *)
Definition tenth : number := fdiv one (ofZ 10).

(** Well-formed doubles: the mantissa and exponent are in canonical
    position, as for every value a JavaScript engine holds. *)
Definition valid (x : number) : bool := valid_binary prec emax x.

(** [Math.floor] of a finite number, as an integer.  (Not meaningful on
    NaN and the infinities, where it yields 0.) *)
Definition floorZ (x : number) : Z :=
  match x with
  | S754_finite s m e => Z.shiftl (cond_Zopp s (Zpos m)) e
  | _ => 0
  end.

(** [Math.fround]: round to the nearest binary32 value, returned as a
    double (every binary32 value is a double). *)
Definition fround (x : number) : number :=
  match x with
  | S754_finite s m e =>
      match binary_round 24 128 s m e with
      | S754_finite s' m' e' => binary_round prec emax s' m' e'
      | y => y
      end
  | _ => x
  end.

(** A value read from an array: [None] is [undefined]. *)
Definition value := option number.

(** ToNumber: [undefined] becomes NaN. *)
Definition toNumber (v : value) : number :=
  match v with
  | Some x => x
  | None => NaN
  end.

(** [a < b] on values that may be [undefined]. *)
Definition jslt (a b : value) : bool := flt (toNumber a) (toNumber b).
Definition jsle (a b : value) : bool := fle (toNumber a) (toNumber b).

Definition is_nan (x : number) : bool :=
  match x with S754_nan => true | _ => false end.

End Num.

Import Num.

(* ================================================================== *)
(** * Typed arrays and counted loops *)

Module Arr.

(** A [Float32Array]; its elements are binary32 values held as doubles. *)
Definition F32 := list number.

Definition len {A} (a : list A) : Z := Z.of_nat (length a).

(** [new Float32Array(n)]: [n] zeros. *)
Definition newF32 (n : Z) : F32 := repeat zero (Z.to_nat n).

(** [a[i]]: [undefined] outside the array. *)
Definition aget (a : F32) (i : Z) : value :=
  if i <? 0 then None else nth_error a (Z.to_nat i).

Fixpoint set_nth (a : F32) (n : nat) (v : number) : F32 :=
  match a, n with
  | [], _ => []
  | _ :: t, O => v :: t
  | h :: t, S n' => h :: set_nth t n' v
  end.

(** [a[i] = v] on a [Float32Array]: the value is rounded to binary32; a
    store outside the array is ignored. *)
Definition aset (a : F32) (i : Z) (v : number) : F32 :=
  if i <? 0 then a else set_nth a (Z.to_nat i) (fround v).

(** [for (let i = lo; i < hi; i++) st = body(i, st)]. *)
Definition for_loop {S} (lo hi : Z) (body : Z -> S -> S) (init : S) : S :=
  fold_left (fun st k => body (lo + Z.of_nat k) st)
            (seq 0 (Z.to_nat (hi - lo))) init.

End Arr.

Import Arr.


(* ================================================================== *)
(** * The autocorrelation kernel, over any arithmetic

    computeACF and computeDF use only [+], [-], [*] and array reads.  They
    are written once over the arithmetic, and run below both on doubles (the
    program) and on rationals (the same program without rounding). *)

Module Kernel.
Section Arith.

Context {T : Type}.
Variables (add sub mul : T -> T -> T) (zero two undef : T).

(** A read used as an operand; [undef] stands for ToNumber(undefined). *)
Definition get (a : list T) (i : Z) : T :=
  if i <? 0 then undef else nth (Z.to_nat i) a undef.

(** [a.subarray(begin)]: a negative [begin] counts from the end, and the
    start is clamped to the array. *)
Definition subarray (a : list T) (begin : Z) : list T :=
  let b := if begin <? 0 then Z.max (len a + begin) 0
           else Z.min begin (len a) in
  skipn (Z.to_nat b) a.

(** computeACF: the autocorrelation at lag [tau]. *)
Definition computeACF (audioSamples : list T) (tau : Z) : T :=
  let maxTau := len audioSamples - 1 in
  if (tau <? 0) || (maxTau <? tau) then zero
  else
    let limit := len audioSamples - tau in
    for_loop 0 limit
      (fun x acf =>
         add acf (mul (get audioSamples x) (get audioSamples (x + tau))))
      zero.

(** computeDF: the difference function at lag [tau]. *)
Definition computeDF (audioSamples : list T) (tau : Z) : T :=
  let r0 := computeACF audioSamples 0 in
  let rShift := computeACF (subarray audioSamples tau) 0 in
  let rTau := computeACF audioSamples tau in
  sub (add r0 rShift) (mul two rTau).

(** The squared difference between a frame and its copy shifted by [tau],
    summed over the overlap: the sum of (frame[i] - frame[i+tau])^2 for
    0 <= i < length - tau. *)
Definition squaredDifference (frame : list T) (tau : Z) : T :=
  for_loop 0 (len frame - tau)
    (fun i acc =>
       let d := sub (get frame i) (get frame (i + tau)) in
       add acc (mul d d))
    zero.

(** The energy of the last [tau] samples: the sum of frame[i]^2 for
    length - tau <= i < length. *)
Definition tailEnergy (frame : list T) (tau : Z) : T :=
  for_loop (len frame - tau) (len frame)
    (fun i acc => add acc (mul (get frame i) (get frame i)))
    zero.

End Arith.
End Kernel.

(** The kernel in exact rational arithmetic. *)
Module Exact.

Definition computeACF : list Q -> Z -> Q :=
  Kernel.computeACF Qplus Qmult 0%Q 0%Q.
Definition computeDF : list Q -> Z -> Q :=
  Kernel.computeDF Qplus Qminus Qmult 0%Q 2%Q 0%Q.
Definition squaredDifference : list Q -> Z -> Q :=
  Kernel.squaredDifference Qplus Qminus Qmult 0%Q 0%Q.
Definition tailEnergy : list Q -> Z -> Q :=
  Kernel.tailEnergy Qplus Qmult 0%Q 0%Q.

(** The sum of [g i] for [lo <= i < hi]. *)
Definition sum (lo hi : Z) (g : Z -> Q) : Q :=
  for_loop lo hi (fun i acc => (acc + g i)%Q) 0%Q.

End Exact.

(* ================================================================== *)
(** * yin-algorithm.js *)

Module Yin.

Definition MIN_FREQUENCY : number := ofZ 27.
Definition MAX_FREQUENCY : number := ofZ 5000.
Definition THRESHOLD : number := tenth.

(** computeACF and computeDF on doubles. *)
Definition computeACF : F32 -> Z -> number :=
  Kernel.computeACF fadd fmul zero NaN.
Definition computeDF : F32 -> Z -> number :=
  Kernel.computeDF fadd fsub fmul zero two NaN.
Definition squaredDifference : F32 -> Z -> number :=
  Kernel.squaredDifference fadd fsub fmul zero NaN.

(** The first loop of computeCMNDF, filling [df]. *)
Definition fill_df (audioSamples : F32) (maxTau : Z) (df : F32) : F32 :=
  for_loop 1 (maxTau + 1)
    (fun tau df => aset df tau (computeDF audioSamples tau)) df.

(** One round of the second loop of computeCMNDF. *)
Definition cmndf_step (df : F32) (tau : Z) (st : number * F32)
  : number * F32 :=
  let '(cumulativeDF, cmndf) := st in
  let cumulativeDF := fadd cumulativeDF (toNumber (aget df tau)) in
  if feq cumulativeDF zero then (cumulativeDF, aset cmndf tau one)
  else (cumulativeDF,
        aset cmndf tau
          (fdiv (fmul (toNumber (aget df tau)) (ofZ tau)) cumulativeDF)).

(** computeCMNDF.  [None] is the RangeError of [new Float32Array] on a
    negative length. *)
Definition computeCMNDF (audioSamples : F32) (tauMin tauMax : Z)
  : option F32 :=
  let startTau := Z.max 1 tauMin in
  let maxTau := Z.min tauMax (len audioSamples - 1) in
  if maxTau + 1 <? 0 then None
  else
    let df := newF32 (maxTau + 1) in
    let cmndf := newF32 (maxTau + 1) in
    if maxTau <? startTau then Some cmndf
    else
      let df := fill_df audioSamples maxTau df in
      let cmndf := aset cmndf 0 one in
      Some (snd (for_loop 1 (maxTau + 1) (cmndf_step df) (zero, cmndf))).

(** The inner [while] of findBestTau: advance while the next value is
    strictly smaller.  [fuel] bounds the number of rounds; the loop
    leaves on its own within [tauMax - bestTauCandidate] rounds. *)
Fixpoint descend (fuel : nat) (cmndf : F32) (tauMax bestTauCandidate : Z)
  : Z :=
  match fuel with
  | O => bestTauCandidate
  | S fuel' =>
      if (bestTauCandidate + 1 <? tauMax)
         && jslt (aget cmndf (bestTauCandidate + 1))
                 (aget cmndf bestTauCandidate)
      then descend fuel' cmndf tauMax (bestTauCandidate + 1)
      else bestTauCandidate
  end.

(** The [for] of findBestTau with [n] rounds left, at lag [tau]. *)
Fixpoint scan (n : nat) (cmndf : F32) (threshold : number)
         (tauMax tau : Z) : option Z :=
  match n with
  | O => None
  | S n' =>
      if jslt (aget cmndf tau) (Some threshold)
      then Some (descend (Z.to_nat (tauMax - tau)) cmndf tauMax tau)
      else scan n' cmndf threshold tauMax (tau + 1)
  end.

(** One round of the loop of findGlobalMinIndex. *)
Definition min_step (array : F32) (i : Z) (st : value * Z) : value * Z :=
  let '(minValue, minIndex) := st in
  if jslt (aget array i) minValue then (aget array i, i)
  else (minValue, minIndex).

(** findGlobalMinIndex. *)
Definition findGlobalMinIndex (array : F32) (start end_ : Z) : Z :=
  snd (for_loop (start + 1) end_ (min_step array)
         (aget array start, start)).

(** findBestTau. *)
Definition findBestTau (cmndf : F32) (threshold : number)
           (tauMin tauMax : Z) : Z :=
  match scan (Z.to_nat (tauMax - tauMin)) cmndf threshold tauMax tauMin with
  | Some bestTauCandidate => bestTauCandidate
  | None => findGlobalMinIndex cmndf tauMin tauMax
  end.

(** The two operands of the division in refineTau. *)
Definition numerator (cmndf : F32) (tau : Z) : number :=
  fsub (toNumber (aget cmndf (tau - 1))) (toNumber (aget cmndf (tau + 1))).
Definition denominator (cmndf : F32) (tau : Z) : number :=
  fadd (fsub (toNumber (aget cmndf (tau - 1)))
             (fmul two (toNumber (aget cmndf tau))))
       (toNumber (aget cmndf (tau + 1))).

(** refineTau. *)
Definition refineTau (cmndf : F32) (tau : Z) : number :=
  if (tau <? 1) || (len cmndf <=? tau + 1) then ofZ tau
  else
    fadd (ofZ tau)
         (fmul half (fdiv (numerator cmndf tau) (denominator cmndf tau))).

(** A detection result [{frequency, confidence}]. *)
Record detection := { frequency : number; confidence : value }.

(** What a call ends in: a RangeError, or a returned result, [None]
    being [null]. *)
Inductive outcome :=
| Throw
| Return (r : option detection).

Definition tauMin_of (sampleRate : number) : Z :=
  floorZ (fdiv sampleRate MAX_FREQUENCY).
Definition tauMax_of (sampleRate : number) : Z :=
  floorZ (fdiv sampleRate MIN_FREQUENCY).

(** detectPitch, for a finite [sampleRate].  The test [!cmndf] never
    fires: computeCMNDF returns a typed array, which is truthy. *)
Definition detectPitch (waveform : F32) (sampleRate : number) : outcome :=
  if len waveform =? 0 then Return None
  else
    let tauMin := tauMin_of sampleRate in
    let tauMax := tauMax_of sampleRate in
    match computeCMNDF waveform tauMin tauMax with
    | None => Throw
    | Some cmndf =>
        let tau := findBestTau cmndf THRESHOLD tauMin tauMax in
        let confidence := aget cmndf tau in
        let refinedTau := refineTau cmndf tau in
        let frequency := fdiv sampleRate refinedTau in
        if flt frequency MIN_FREQUENCY || flt MAX_FREQUENCY frequency
        then Return None
        else Return (Some {| frequency := frequency;
                             confidence := confidence |})
    end.

End Yin.

Import Yin.

(* ================================================================== *)
(** * The reads of the CMNDF curve

    The search and the refinement again, each returning next to its result
    the indices at which it reads the curve, in program order. *)

Module Reads.

Fixpoint descend_log (fuel : nat) (cmndf : F32) (tauMax bestTauCandidate : Z)
  : Z * list Z :=
  match fuel with
  | O => (bestTauCandidate, [])
  | S fuel' =>
      if bestTauCandidate + 1 <? tauMax then
        if jslt (aget cmndf (bestTauCandidate + 1))
                (aget cmndf bestTauCandidate)
        then
          let '(r, l) :=
            descend_log fuel' cmndf tauMax (bestTauCandidate + 1) in
          (r, (bestTauCandidate + 1) :: bestTauCandidate :: l)
        else (bestTauCandidate, [bestTauCandidate + 1; bestTauCandidate])
      else (bestTauCandidate, [])
  end.

Fixpoint scan_log (n : nat) (cmndf : F32) (threshold : number)
         (tauMax tau : Z) : option Z * list Z :=
  match n with
  | O => (None, [])
  | S n' =>
      if jslt (aget cmndf tau) (Some threshold) then
        let '(r, l) :=
          descend_log (Z.to_nat (tauMax - tau)) cmndf tauMax tau in
        (Some r, tau :: l)
      else
        let '(r, l) := scan_log n' cmndf threshold tauMax (tau + 1) in
        (r, tau :: l)
  end.

Definition min_step_log (array : F32) (i : Z) (st : (value * Z) * list Z)
  : (value * Z) * list Z :=
  let '(s, l) := st in
  (min_step array i s,
   l ++ (if jslt (aget array i) (fst s) then [i; i] else [i])).

Definition findGlobalMinIndex_log (array : F32) (start end_ : Z)
  : Z * list Z :=
  let '(s, l) :=
    for_loop (start + 1) end_ (min_step_log array)
             ((aget array start, start), [start]) in
  (snd s, l).

Definition findBestTau_log (cmndf : F32) (threshold : number)
           (tauMin tauMax : Z) : Z * list Z :=
  match scan_log (Z.to_nat (tauMax - tauMin)) cmndf threshold tauMax tauMin
  with
  | (Some bestTauCandidate, l) => (bestTauCandidate, l)
  | (None, l) =>
      let '(r, l') := findGlobalMinIndex_log cmndf tauMin tauMax in
      (r, l ++ l')
  end.

(** The indices refineTau reads: none at a boundary, else the operands of
    the numerator and of the denominator. *)
Definition refineTau_reads (cmndf : F32) (tau : Z) : list Z :=
  if (tau <? 1) || (len cmndf <=? tau + 1) then []
  else [tau - 1; tau + 1; tau - 1; tau; tau + 1].

Definition in_bounds (a : F32) (i : Z) : Prop := 0 <= i < len a.

End Reads.

(* ================================================================== *)
(** * app.js: the smoothing step of detectionLoop *)

Module App.

Definition SMOOTHING_FRAMES : Z := 3.
(** The literal [0.15]. *)
Definition CONFIDENCE_THRESHOLD : number := fdiv (ofZ 15) (ofZ 100).

(** average. *)
Definition average (array : list number) : number :=
  if len array =? 0 then zero
  else
    fdiv (for_loop 0 (len array)
            (fun i total => fadd total (toNumber (aget array i))) zero)
         (ofZ (len array)).

(** The body of detectionLoop between the call of detectPitch and the
    call of updateUI: the new [frequencyHistory], and the averaged
    frequency handed to the note mapping ([None] when the note stays
    [null]). *)
Definition smooth (frequencyHistory : list number)
           (detection : option Yin.detection)
  : list number * option number :=
  match detection with
  | Some d =>
      if jslt (confidence d) (Some CONFIDENCE_THRESHOLD) then
        let h := frequencyHistory ++ [frequency d] in
        let h := if SMOOTHING_FRAMES <? len h then tl h else h in
        (h, Some (average h))
      else ([], None)
  | None => ([], None)
  end.

(** Successive frames, from a given history; the outputs in order. *)
Fixpoint run (frequencyHistory : list number)
         (detections : list (option Yin.detection))
  : list number * list (option number) :=
  match detections with
  | [] => (frequencyHistory, [])
  | d :: rest =>
      let '(h, out) := smooth frequencyHistory d in
      let '(h', outs) := run h rest in
      (h', out :: outs)
  end.

(** A detection that passes the gate, with the given frequency. *)
Definition confident (f : number) : option Yin.detection :=
  Some {| frequency := f; confidence := Some zero |}.

End App.

(* ================================================================== *)
(** * Reference definitions, after the specification *)

Module Spec.

(** The arithmetic mean: the sum of the entries over their count. *)
Definition mean (queue : list number) : number :=
  fdiv (fold_left fadd queue zero) (ofZ (len queue)).

(** The reference update of the smoother: a confident detection is
    appended, the oldest entry dropped when the queue exceeds 3, and the
    mean of the queue is the output; anything else clears the queue. *)
Definition reference_update (queue : list number)
           (input : option Yin.detection)
  : list number * option number :=
  match input with
  | Some d =>
      if flt (toNumber (confidence d)) App.CONFIDENCE_THRESHOLD then
        let q := queue ++ [frequency d] in
        let q := if (3 <? length q)%nat then skipn 1 q else q in
        (q, Some (mean q))
      else ([], None)
  | None => ([], None)
  end.

(** ACF(signal, lag): the sum of signal[i] * signal[i + lag] over the
    overlap of the signal with its copy shifted by [lag]. *)
Definition ACF (signal : F32) (lag : nat) : number :=
  fold_left (fun acc p => fadd acc (fmul (fst p) (snd p)))
            (combine signal (skipn lag signal)) zero.

(** The difference-function value as the CMNDF loop sees it: what was
    stored in [df]. *)
Definition d (frame : F32) (tau : Z) : number :=
  fround (computeDF frame tau).

(** The running sum d(1) + ... + d(k). *)
Fixpoint running_sum (frame : F32) (k : nat) : number :=
  match k with
  | O => zero
  | S k' => fadd (running_sum frame k') (d frame (Z.of_nat k))
  end.

(** The CMNDF value the specification gives for a lag [tau >= 1]. *)
Definition cmndf_at (frame : F32) (tau : Z) : number :=
  let cumulative := running_sum frame (Z.to_nat tau) in
  if feq cumulative zero then one
  else fround (fdiv (fmul (d frame tau) (ofZ tau)) cumulative).

(** [t0] is the first lag of the range whose value is below the
    threshold. *)
Definition first_below (cmndf : F32) (threshold : number)
           (tauMin tauMax t0 : Z) : Prop :=
  tauMin <= t0 < tauMax /\
  jslt (aget cmndf t0) (Some threshold) = true /\
  forall t, tauMin <= t < t0 ->
            jslt (aget cmndf t) (Some threshold) = false.

(** [r] ends the strictly decreasing run that starts at [t0], within the
    range. *)
Definition valley_end (cmndf : F32) (tauMax t0 r : Z) : Prop :=
  t0 <= r < tauMax /\
  (forall k, t0 <= k < r ->
             jslt (aget cmndf (k + 1)) (aget cmndf k) = true) /\
  (r + 1 < tauMax ->
   jslt (aget cmndf (r + 1)) (aget cmndf r) = false).

(** No value of the range is below the threshold. *)
Definition none_below (cmndf : F32) (threshold : number)
           (tauMin tauMax : Z) : Prop :=
  forall t, tauMin <= t < tauMax ->
            jslt (aget cmndf t) (Some threshold) = false.

(** [r] is the index of the minimum over the range, the first one on
    ties, in terms of the comparisons of the language: no value is
    smaller than the one at [r], and no earlier value is as small. *)
Definition global_min_index (array : F32) (start end_ r : Z) : Prop :=
  start <= r < end_ /\
  (forall k, start <= k < end_ ->
             jslt (aget array k) (aget array r) = false) /\
  (forall k, start <= k < r ->
             jsle (aget array k) (aget array r) = false).

(** Every value of the range is a number other than NaN. *)
Definition all_numbers (array : F32) (start end_ : Z) : Prop :=
  forall k, start <= k < end_ ->
            exists x, aget array k = Some x /\ is_nan x = false.

(** The same, on a curve of proper numbers: the value at [r] is at most
    every value of the range, and below every earlier one. *)
Definition least_index (array : F32) (start end_ r : Z) : Prop :=
  start <= r < end_ /\
  (forall k, start <= k < end_ ->
             jsle (aget array r) (aget array k) = true) /\
  (forall k, start <= k < r ->
             jslt (aget array r) (aget array k) = true).

End Spec.


(* ================================================================== *)
(** * Sample inputs *)

Module Samples.

(** A silent frame of [n] samples. *)
Definition zeros (n : nat) : F32 := repeat zero n.

(** Four samples equal to 1. *)
Definition ones4 : F32 := map ofZ [1; 1; 1; 1].

(** Twelve samples alternating between 1 and -1. *)
Definition square12 : F32 :=
  map ofZ [1; -1; 1; -1; 1; -1; 1; -1; 1; -1; 1; -1].

(** A curve with a valley below the threshold: 1, 0.5, 0.05, 0.02, 0.3. *)
Definition valley : F32 :=
  [one; half; fdiv (ofZ 5) (ofZ 100); fdiv (ofZ 2) (ofZ 100);
   fdiv (ofZ 3) (ofZ 10)].

(** The curve of a call, or the empty array if the call throws. *)
Definition curve (waveform : F32) (sampleRate : number) : F32 :=
  match computeCMNDF waveform (tauMin_of sampleRate) (tauMax_of sampleRate)
  with
  | Some cmndf => cmndf
  | None => []
  end.

End Samples.

(* ================================================================== *)
(** * Built-in operations of the language used outside the detector *)

Module JSMath.

(** Unary minus and [Math.abs]. *)
Definition fopp : number -> number := SFopp.
Definition fabs : number -> number := SFabs.

(** [Number.isFinite] on a number. *)
Definition isFinite (x : number) : bool :=
  match x with
  | S754_zero _ | S754_finite _ _ _ => true
  | _ => false
  end.

(** ToBoolean on a number: false on 0, -0 and NaN. *)
Definition truthy (x : number) : bool :=
  match x with
  | S754_zero _ | S754_nan => false
  | _ => true
  end.

(** [Math.min] and [Math.max] of two numbers: NaN if either is NaN, and -0
    counts as smaller than 0. *)
Definition fmin (a b : number) : number :=
  if is_nan a || is_nan b then NaN
  else
    match a, b with
    | S754_zero sa, S754_zero sb => S754_zero (sa || sb)
    | _, _ => if flt b a then b else a
    end.

Definition fmax (a b : number) : number :=
  if is_nan a || is_nan b then NaN
  else
    match a, b with
    | S754_zero sa, S754_zero sb => S754_zero (sa && sb)
    | _, _ => if flt a b then b else a
    end.

(** [Math.floor], as a number: the integer is exact; an argument in (0, 1)
    gives 0, and the zeros, NaN and the infinities are returned as they
    are. *)
Definition ffloor (x : number) : number :=
  match x with
  | S754_finite _ _ _ => ofZ (floorZ x)
  | _ => x
  end.

(** [Math.round]: the nearest integer, a tie going towards +Infinity; a
    result of zero keeps the sign of the argument. *)
Definition mathRound (x : number) : number :=
  match x with
  | S754_finite s m e =>
      if 0 <=? e then x
      else
        let n := (2 * cond_Zopp s (Zpos m) + 2 ^ (- e)) / 2 ^ (1 - e) in
        if n =? 0 then S754_zero s else ofZ n
  | _ => x
  end.

(** The remainder operator [x % y]: NaN when [x] is not finite or [y] is
    zero or NaN, [x] when [y] is infinite or [x] is zero, else the exact
    remainder of the truncating division, with the sign of [x]. *)
Definition frem (x y : number) : number :=
  match x, y with
  | S754_nan, _ | _, S754_nan => NaN
  | S754_infinity _, _ => NaN
  | _, S754_zero _ => NaN
  | _, S754_infinity _ => x
  | S754_zero _, _ => x
  | S754_finite sx mx ex, S754_finite _ my ey =>
      let e := Z.min ex ey in
      let r := (Zpos mx * 2 ^ (ex - e)) mod (Zpos my * 2 ^ (ey - e)) in
      if r =? 0 then S754_zero sx
      else binary_normalize prec emax (cond_Zopp sx r) e false
  end.

(** The array index a number denotes as a property key, if any: a
    non-negative integer (-0 is the key "0"). *)
Definition arrayIndex (x : number) : option nat :=
  match x with
  | S754_zero _ => Some O
  | S754_finite false m e =>
      if feq (ofZ (floorZ x)) x then Some (Z.to_nat (floorZ x)) else None
  | _ => None
  end.

End JSMath.

Import JSMath.

(* ================================================================== *)
(** * note-mapping.js *)

Module NoteMapping.

Definition DEFAULT_REFERENCE_FREQUENCY : number := ofZ 440.
Definition REFERENCE_MIDI : number := ofZ 69.

Definition NOTE_NAMES : list string :=
  ["C"; "C♯"; "D"; "D♯"; "E"; "F"; "F♯"; "G"; "G♯"; "A"; "A♯"; "B"]%string.

(** The result of midiNoteToName; [name] is [None] when the lookup in
    NOTE_NAMES gives [undefined]. *)
Record named := { name : option string; octave : number }.

(** midiNoteToName. *)
Definition midiNoteToName (midiNote : number) : named :=
  let noteIndex := frem midiNote (ofZ 12) in
  let name :=
    match arrayIndex noteIndex with
    | Some i => nth_error NOTE_NAMES i
    | None => None
    end in
  let octave := fsub (ffloor (fdiv midiNote (ofZ 12))) one in
  {| name := name; octave := octave |}.

(** getReferenceFrequency, on the module variable [referenceFrequency]. *)
Definition getReferenceFrequency (referenceFrequency : number) : number :=
  referenceFrequency.

(** setReferenceFrequency: [None] is the RangeError, which leaves the
    module variable as it was; [Some] is its new value. *)
Definition setReferenceFrequency (frequency : number) : option number :=
  if negb (isFinite frequency) || fle frequency zero then None
  else Some frequency.

(** A caller's view of one call: the module variable after it, an
    exception leaving it unchanged. *)
Definition afterSet (referenceFrequency frequency : number) : number :=
  match setReferenceFrequency frequency with
  | Some f => f
  | None => referenceFrequency
  end.

(** The note object returned by frequencyToNote; [displayName] holds the
    two values the template string interpolates. *)
Record note := {
  noteName : option string;
  noteOctave : number;
  cents : number;
  frequency : number;
  targetFrequency : number;
  midiNote : number;
  displayName : option string * number;
  inTune : bool;
  almostInTune : bool
}.

Section Transcendental.

(** [Math.log2] and the operator [**], whose values the language leaves to
    the implementation. *)
Variable log2 : number -> number.
Variable pow : number -> number -> number.

Definition SEMITONE_RATIO : number := pow two (fdiv one (ofZ 12)).

(** frequencyToMidiNote. *)
Definition frequencyToMidiNote (referenceFrequency frequency : number)
  : number :=
  fadd REFERENCE_MIDI
       (fmul (ofZ 12) (log2 (fdiv frequency referenceFrequency))).

(** midiNoteToFrequency. *)
Definition midiNoteToFrequency (referenceFrequency midiNote : number)
  : number :=
  fmul referenceFrequency (pow SEMITONE_RATIO (fsub midiNote REFERENCE_MIDI)).

(** frequencyToNote. *)
Definition frequencyToNote (referenceFrequency frequency : number)
  : option note :=
  if negb (truthy frequency) || fle frequency zero then None
  else
    let midiNote := frequencyToMidiNote referenceFrequency frequency in
    let nearestMidiNote := mathRound midiNote in
    let cents := fmul (ofZ 100) (fsub midiNote nearestMidiNote) in
    let no := midiNoteToName nearestMidiNote in
    let targetFrequency :=
      midiNoteToFrequency referenceFrequency nearestMidiNote in
    Some {| noteName := name no;
            noteOctave := octave no;
            cents := cents;
            frequency := frequency;
            targetFrequency := targetFrequency;
            midiNote := nearestMidiNote;
            displayName := (name no, octave no);
            inTune := flt (fabs cents) (ofZ 5);
            almostInTune := flt (fabs cents) (ofZ 20) |}.

End Transcendental.

End NoteMapping.

(* ================================================================== *)
(** * tuner-ui.js *)

Module TunerUI.

Definition GAUGE_RANGE : number := ofZ 50.
Definition NEEDLE_CENTER : number := ofZ 50.

(** What the code assigns to a [textContent]. *)
Inductive text :=
| Literal (s : string)
| DisplayName (n : option string * number)
| FixedHz (f : number).

(** The three elements as the code leaves them: the texts assigned, the
    class tokens, and the percentage assigned to [needle.style.left]. *)
Record display := {
  noteName_textContent : text;
  noteName_className : list string;
  noteFrequency_textContent : text;
  needle_left : number;
  needle_className : list string
}.

(** [classList.add(token)] on a list of class tokens. *)
Definition classList_add (tokens : list string) (token : string)
  : list string :=
  if existsb (String.eqb token) tokens then tokens else tokens ++ [token].

(** The clamped cents and the needle position of updateNeedle. *)
Definition clampedCents (cents : number) : number :=
  fmax (fopp GAUGE_RANGE) (fmin GAUGE_RANGE cents).

Definition needlePercent (cents : number) : number :=
  fadd NEEDLE_CENTER
       (fmul (fdiv (clampedCents cents) GAUGE_RANGE) (ofZ 50)).

(** updateNeedle. *)
Definition updateNeedle (cents : number) (inTune almostInTune : bool)
           (d : display) : display :=
  let cls := ["gauge-needle"%string] in
  let cls :=
    if inTune then classList_add cls "in-tune"
    else if almostInTune then classList_add cls "out-of-tune"
    else classList_add cls "very-out-of-tune" in
  {| noteName_textContent := noteName_textContent d;
     noteName_className := noteName_className d;
     noteFrequency_textContent := noteFrequency_textContent d;
     needle_left := needlePercent cents;
     needle_className := cls |}.

(** resetNeedle. *)
Definition resetNeedle (d : display) : display :=
  {| noteName_textContent := noteName_textContent d;
     noteName_className := noteName_className d;
     noteFrequency_textContent := noteFrequency_textContent d;
     needle_left := ofZ 50;
     needle_className := ["gauge-needle"%string] |}.

(** updateUI. *)
Definition updateUI (note : option NoteMapping.note) (d : display)
  : display :=
  match note with
  | None =>
      resetNeedle
        {| noteName_textContent := Literal "—";
           noteName_className := ["note-name"%string];
           noteFrequency_textContent := Literal "0.0 Hz";
           needle_left := needle_left d;
           needle_className := needle_className d |}
  | Some n =>
      updateNeedle (NoteMapping.cents n) (NoteMapping.inTune n)
        (NoteMapping.almostInTune n)
        {| noteName_textContent := DisplayName (NoteMapping.displayName n);
           noteName_className := ["note-name"%string];
           noteFrequency_textContent := FixedHz (NoteMapping.frequency n);
           needle_left := needle_left d;
           needle_className := needle_className d |}
  end.

End TunerUI.

(* ================================================================== *)
(** * app.js: one frame of detectionLoop *)

Module Loop.

(** The module variables detectionLoop uses, with the display of
    tuner-ui.js. *)
Record app := {
  isRunning : bool;
  animationId : option number;
  frequencyHistory : list number;
  display : TunerUI.display
}.

(** What getAudioContext gives the frame: [null], or the sample rate and
    the waveform its [getWaveform] returns. *)
Inductive audio :=
| NoContext
| Context (sampleRate : number) (waveform : F32).

Section Frame.

Variable log2 : number -> number.
Variable pow : number -> number -> number.
(** The reference frequency held by note-mapping.js. *)
Variable referenceFrequency : number.

(** detectionLoop, for one call; [nextId] is what requestAnimationFrame
    returns.  A RangeError of detectPitch is caught by the [try], which
    only logs it. *)
Definition detectionLoop (st : app) (ctx : audio) (nextId : number) : app :=
  if negb (isRunning st) then st
  else
    match ctx with
    | NoContext =>
        {| isRunning := isRunning st;
           animationId := Some nextId;
           frequencyHistory := frequencyHistory st;
           display := display st |}
    | Context sampleRate waveform =>
        match detectPitch waveform sampleRate with
        | Throw =>
            {| isRunning := isRunning st;
               animationId := Some nextId;
               frequencyHistory := frequencyHistory st;
               display := display st |}
        | Return detection =>
            let '(history, avgFrequency) :=
              App.smooth (frequencyHistory st) detection in
            let note :=
              match avgFrequency with
              | Some f =>
                  NoteMapping.frequencyToNote log2 pow referenceFrequency f
              | None => None
              end in
            {| isRunning := isRunning st;
               animationId := Some nextId;
               frequencyHistory := history;
               display := TunerUI.updateUI note (display st) |}
        end
    end.

(** Successive frames. *)
Fixpoint frames (st : app) (inputs : list (audio * number)) : app :=
  match inputs with
  | [] => st
  | (ctx, nextId) :: rest => frames (detectionLoop st ctx nextId) rest
  end.

End Frame.

(** The display after [updateUI(null)]. *)
Definition blank : TunerUI.display :=
  {| TunerUI.noteName_textContent := TunerUI.Literal "—";
     TunerUI.noteName_className := ["note-name"%string];
     TunerUI.noteFrequency_textContent := TunerUI.Literal "0.0 Hz";
     TunerUI.needle_left := ofZ 50;
     TunerUI.needle_className := ["gauge-needle"%string] |}.

End Loop.

(* ================================================================== *)
(** * Further reference definitions *)

Module Trace.

(** A detection passes the gate of the smoother. *)
Definition passes (d : detection) : bool :=
  jslt (confidence d) (Some App.CONFIDENCE_THRESHOLD).

(** The last [n] entries of a list. *)
Definition lastn {A} (n : nat) (l : list A) : list A :=
  skipn (length l - n) l.

(** Structural equality of numbers, as a boolean. *)
Definition same (a b : number) : bool :=
  match a, b with
  | S754_zero s, S754_zero s' => Bool.eqb s s'
  | S754_infinity s, S754_infinity s' => Bool.eqb s s'
  | S754_nan, S754_nan => true
  | S754_finite s m e, S754_finite s' m' e' =>
      Bool.eqb s s' && Pos.eqb m m' && Z.eqb e e'
  | _, _ => false
  end.

(** The name and octave of an integer MIDI note: the twelve names cycle
    from C at the multiples of 12, and octave -1 starts at note 0. *)
Definition named_of (n : Z) : NoteMapping.named :=
  {| NoteMapping.name :=
       if 0 <=? n then nth_error NoteMapping.NOTE_NAMES (Z.to_nat (n mod 12))
       else if n mod 12 =? 0 then Some "C"%string else None;
     NoteMapping.octave := ofZ (n / 12 - 1) |}.

(** Equality of two results of midiNoteToName, as a boolean. *)
Definition same_named (a b : NoteMapping.named) : bool :=
  match NoteMapping.name a, NoteMapping.name b with
  | Some x, Some y => String.eqb x y
  | None, None => true
  | _, _ => false
  end
  && same (NoteMapping.octave a) (NoteMapping.octave b).

(** The display is blank, or it shows the mean of the current history. *)
Definition shows_mean (st : Loop.app) : Prop :=
  Loop.display st = Loop.blank \/
  (Loop.frequencyHistory st <> [] /\
   TunerUI.noteFrequency_textContent (Loop.display st)
   = TunerUI.FixedHz (Spec.mean (Loop.frequencyHistory st))).

End Trace.

(* ================================================================== *)
(** * The constants, evaluated *)

(** The literals as doubles: 0.1 is 0x1.999999999999ap-4, 0.15 is
    0x1.3333333333333p-3, 0.5 is 0x1p-1. *)
Lemma literal_values :
  THRESHOLD = S754_finite false 7205759403792794 (-56) /\
  App.CONFIDENCE_THRESHOLD = S754_finite false 5404319552844595 (-55) /\
  half = S754_finite false 4503599627370496 (-53) /\
  valid THRESHOLD = true /\ valid App.CONFIDENCE_THRESHOLD = true.
Proof. repeat split; reflexivity. Qed.

(** The lag ranges of the usual sample rates. *)
Lemma lag_range_examples :
  tauMin_of (ofZ 44100) = 8 /\ tauMax_of (ofZ 44100) = 1633 /\
  tauMin_of (ofZ 48000) = 9 /\ tauMax_of (ofZ 48000) = 1777.
Proof. repeat split; reflexivity. Qed.

(* ================================================================== *)
(** * The order on numbers *)

Section NumberOrder.

Ltac cmp_split :=
  repeat match goal with
    | H : context [Pos.compare_cont Eq ?a ?b] |- _ =>
        change (Pos.compare_cont Eq a b) with (Pos.compare a b) in H
    | |- context [Pos.compare_cont Eq ?a ?b] =>
        change (Pos.compare_cont Eq a b) with (Pos.compare a b)
    end;
  repeat match goal with
    | H : context [Z.compare ?a ?b] |- _ =>
        destruct (Z.compare_spec a b); simpl in H
    | |- context [Z.compare ?a ?b] =>
        destruct (Z.compare_spec a b); simpl
    | H : context [Pos.compare ?a ?b] |- _ =>
        destruct (Pos.compare_spec a b); simpl in H
    | |- context [Pos.compare ?a ?b] =>
        destruct (Pos.compare_spec a b); simpl
    end;
  try discriminate; try reflexivity; try lia.

Ltac order_cases a b c :=
  unfold flt, fle, SFltb, SFleb;
  destruct a as [[|]|[|]| |[|] ? ?], b as [[|]|[|]| |[|] ? ?],
           c as [[|]|[|]| |[|] ? ?];
  simpl; intros; try discriminate; try reflexivity; cmp_split.

Ltac order_cases2 a b :=
  unfold flt, fle, SFltb, SFleb;
  destruct a as [[|]|[|]| |[|] ? ?], b as [[|]|[|]| |[|] ? ?];
  simpl; intros; try discriminate; try reflexivity; cmp_split.

Lemma flt_trans (a b c : number) :
  flt a b = true -> flt b c = true -> flt a c = true.
Proof. order_cases a b c. Qed.

Lemma fle_flt_trans (a b c : number) :
  fle a b = true -> flt b c = true -> flt a c = true.
Proof. order_cases a b c. Qed.

Lemma flt_fle (a b : number) : flt a b = true -> fle a b = true.
Proof. order_cases2 a b. Qed.

Lemma flt_not_fle (a b : number) : flt a b = true -> fle b a = false.
Proof. order_cases2 a b. Qed.

Lemma not_flt_fle (a b : number) :
  is_nan a = false -> is_nan b = false ->
  flt a b = false -> fle b a = true.
Proof. order_cases2 a b. Qed.

Lemma not_fle_flt (a b : number) :
  is_nan a = false -> is_nan b = false ->
  fle a b = false -> flt b a = true.
Proof. order_cases2 a b. Qed.

End NumberOrder.

(* ================================================================== *)
(** * Counted loops and array stores *)

Section Loops.

Context {S : Type}.
Variable body : Z -> S -> S.

Lemma for_loop_nil (lo hi : Z) (init : S) :
  hi <= lo -> for_loop lo hi body init = init.
Proof.
  intros H. unfold for_loop.
  replace (Z.to_nat (hi - lo)) with O by lia. reflexivity.
Qed.

Lemma for_loop_snoc (lo hi : Z) (init : S) :
  lo <= hi ->
  for_loop lo (hi + 1) body init = body hi (for_loop lo hi body init).
Proof.
  intros H. unfold for_loop.
  replace (Z.to_nat (hi + 1 - lo)) with (Datatypes.S (Z.to_nat (hi - lo)))
    by lia.
  rewrite seq_S, fold_left_app. simpl.
  replace (lo + Z.of_nat (Z.to_nat (hi - lo))) with hi by lia.
  reflexivity.
Qed.

(** The invariant rule: [P i st] holds when the loop is about to run
    round [i] in state [st]. *)
Lemma for_loop_ind (P : Z -> S -> Prop) (lo hi : Z) (init : S) :
  lo <= hi ->
  P lo init ->
  (forall i st, lo <= i < hi -> P i st -> P (i + 1) (body i st)) ->
  P hi (for_loop lo hi body init).
Proof.
  intros Hle H0 Hstep.
  assert (G : forall n : nat,
             lo + Z.of_nat n <= hi ->
             P (lo + Z.of_nat n)
               (for_loop lo (lo + Z.of_nat n) body init)).
  { induction n as [|n IH]; intros Hn.
    - rewrite for_loop_nil by lia.
      replace (lo + Z.of_nat 0) with lo by lia. exact H0.
    - replace (lo + Z.of_nat (Datatypes.S n)) with (lo + Z.of_nat n + 1)
        by lia.
      rewrite for_loop_snoc by lia.
      apply Hstep; [lia | apply IH; lia]. }
  specialize (G (Z.to_nat (hi - lo))).
  replace (lo + Z.of_nat (Z.to_nat (hi - lo))) with hi in G by lia.
  apply G; lia.
Qed.

End Loops.

Section Stores.

Lemma length_set_nth (a : F32) (n : nat) (v : number) :
  length (set_nth a n v) = length a.
Proof.
  revert n; induction a as [|h t IH]; intros [|n]; simpl; auto.
Qed.

Lemma nth_error_set_nth_eq (a : F32) (n : nat) (v : number) :
  (n < length a)%nat -> nth_error (set_nth a n v) n = Some v.
Proof.
  revert n; induction a as [|h t IH]; intros [|n] H; simpl in *;
    try lia; auto.
  apply IH; lia.
Qed.

Lemma nth_error_set_nth_neq (a : F32) (n k : nat) (v : number) :
  n <> k -> nth_error (set_nth a n v) k = nth_error a k.
Proof.
  revert n k; induction a as [|h t IH]; intros [|n] [|k] H; simpl;
    try congruence; auto.
Qed.

Lemma len_aset (a : F32) (i : Z) (v : number) : len (aset a i v) = len a.
Proof.
  unfold aset, len. destruct (i <? 0); [reflexivity|].
  now rewrite length_set_nth.
Qed.

Lemma aget_aset_eq (a : F32) (i : Z) (v : number) :
  0 <= i < len a -> aget (aset a i v) i = Some (fround v).
Proof.
  unfold aset, aget, len. intros H.
  destruct (Z.ltb_spec i 0); [lia|].
  apply nth_error_set_nth_eq. lia.
Qed.

Lemma aget_aset_neq (a : F32) (i j : Z) (v : number) :
  i <> j -> aget (aset a i v) j = aget a j.
Proof.
  unfold aset, aget. intros H.
  destruct (Z.ltb_spec j 0); [reflexivity|].
  destruct (Z.ltb_spec i 0); [reflexivity|].
  apply nth_error_set_nth_neq. lia.
Qed.

Lemma len_newF32 (n : Z) : 0 <= n -> len (newF32 n) = n.
Proof.
  intros H. unfold len, newF32. rewrite repeat_length. lia.
Qed.

Lemma aget_in_bounds (a : F32) (i : Z) :
  0 <= i < len a -> exists x, aget a i = Some x.
Proof.
  unfold aget, len. intros H.
  destruct (Z.ltb_spec i 0); [lia|].
  destruct (nth_error a (Z.to_nat i)) eqn:E; [eauto|].
  apply nth_error_None in E. lia.
Qed.

Lemma aget_out_of_bounds (a : F32) (i : Z) :
  i < 0 \/ len a <= i -> aget a i = None.
Proof.
  unfold aget, len. intros H.
  destruct (Z.ltb_spec i 0); [reflexivity|].
  apply nth_error_None. lia.
Qed.

End Stores.

(* ================================================================== *)
(** * computeCMNDF *)

Section CMNDF.

Variable audioSamples : F32.
Variable maxTau : Z.
Hypothesis maxTau_pos : 1 <= maxTau.

Lemma fround_one : fround one = one.
Proof. reflexivity. Qed.

Lemma fill_df_inv :
  let df := fill_df audioSamples maxTau (newF32 (maxTau + 1)) in
  len df = maxTau + 1 /\
  forall tau, 1 <= tau < maxTau + 1 ->
              aget df tau = Some (Spec.d audioSamples tau).
Proof.
  unfold fill_df.
  apply (for_loop_ind
           (fun tau df => aset df tau (computeDF audioSamples tau))
           (fun i df => len df = maxTau + 1 /\
                        forall tau, 1 <= tau < i ->
                                    aget df tau =
                                      Some (Spec.d audioSamples tau))).
  - lia.
  - split; [apply len_newF32; lia | intros; lia].
  - intros i df Hi [Hlen Hget]. split.
    + now rewrite len_aset.
    + intros tau Htau. destruct (Z.eq_dec tau i) as [->|Hne].
      * rewrite aget_aset_eq by lia. reflexivity.
      * rewrite aget_aset_neq by congruence. apply Hget. lia.
Qed.

Lemma running_sum_step (i : Z) :
  1 <= i ->
  fadd (Spec.running_sum audioSamples (Z.to_nat (i - 1)))
       (Spec.d audioSamples i)
  = Spec.running_sum audioSamples (Z.to_nat i).
Proof.
  intros Hi.
  replace (Z.to_nat i) with (Datatypes.S (Z.to_nat (i - 1))) by lia.
  change (Spec.running_sum audioSamples (Datatypes.S (Z.to_nat (i - 1))))
    with (fadd (Spec.running_sum audioSamples (Z.to_nat (i - 1)))
            (Spec.d audioSamples
               (Z.of_nat (Datatypes.S (Z.to_nat (i - 1)))))).
  replace (Z.of_nat (Datatypes.S (Z.to_nat (i - 1)))) with i by lia.
  reflexivity.
Qed.

Lemma cmndf_loop_inv (df : F32) :
  (forall tau, 1 <= tau < maxTau + 1 ->
               aget df tau = Some (Spec.d audioSamples tau)) ->
  let st := for_loop 1 (maxTau + 1) (cmndf_step df)
              (zero, aset (newF32 (maxTau + 1)) 0 one) in
  len (snd st) = maxTau + 1 /\
  aget (snd st) 0 = Some one /\
  forall tau, 1 <= tau < maxTau + 1 ->
              aget (snd st) tau = Some (Spec.cmndf_at audioSamples tau).
Proof.
  intros Hdf.
  pose (P := fun (i : Z) (st : number * F32) =>
               fst st = Spec.running_sum audioSamples (Z.to_nat (i - 1)) /\
               len (snd st) = maxTau + 1 /\
               aget (snd st) 0 = Some one /\
               forall tau, 1 <= tau < i ->
                           aget (snd st) tau =
                             Some (Spec.cmndf_at audioSamples tau)).
  assert (G : P (maxTau + 1)
                (for_loop 1 (maxTau + 1) (cmndf_step df)
                   (zero, aset (newF32 (maxTau + 1)) 0 one))).
  { apply for_loop_ind.
    - lia.
    - unfold P; simpl. repeat split.
      + rewrite len_aset. apply len_newF32. lia.
      + rewrite aget_aset_eq by (rewrite len_newF32; lia).
        now rewrite fround_one.
      + intros; lia.
    - intros i [cum cmndf] Hi (Hcum & Hlen & H0 & Hget).
      simpl in Hcum, Hlen, H0, Hget.
      unfold cmndf_step. rewrite (Hdf i) by lia. simpl toNumber.
      rewrite Hcum, running_sum_step by lia.
      destruct (feq (Spec.running_sum audioSamples (Z.to_nat i)) zero)
        eqn:Ez; unfold P; simpl; replace (i + 1 - 1) with i by lia;
        (split; [reflexivity|]);
        rewrite len_aset; (split; [exact Hlen|]);
        (split; [rewrite aget_aset_neq by lia; exact H0|]);
        intros tau Htau; (destruct (Z.eq_dec tau i) as [->|Hne];
          [ rewrite aget_aset_eq by lia; unfold Spec.cmndf_at;
            rewrite Ez; rewrite ?fround_one; reflexivity
          | rewrite aget_aset_neq by congruence; apply Hget; lia ]). }
  destruct G as (_ & Hlen & H0 & Hget). auto.
Qed.

End CMNDF.

(* ================================================================== *)
(** * findBestTau and findGlobalMinIndex *)

Section Search.

Variable cmndf : F32.

Lemma jslt_irrefl (v : value) : jslt v v = false.
Proof.
  unfold jslt. destruct (flt (toNumber v) (toNumber v)) eqn:E; auto.
  pose proof (flt_fle _ _ E) as H1.
  pose proof (flt_not_fle _ _ E) as H2. congruence.
Qed.

Lemma jslt_trans (a b c : value) :
  jslt a b = true -> jslt b c = true -> jslt a c = true.
Proof. unfold jslt. apply flt_trans. Qed.

Lemma jsle_jslt_trans (a b c : value) :
  jsle a b = true -> jslt b c = true -> jslt a c = true.
Proof. unfold jslt, jsle. apply fle_flt_trans. Qed.

(** The fuel given by [scan] is enough: more fuel changes nothing. *)
Lemma descend_fuel (tauMax : Z) (f1 f2 : nat) (c : Z) :
  (Z.to_nat (tauMax - c) <= f1)%nat ->
  (Z.to_nat (tauMax - c) <= f2)%nat ->
  descend f1 cmndf tauMax c = descend f2 cmndf tauMax c.
Proof.
  revert f2 c. induction f1 as [|f1 IH]; intros [|f2] c H1 H2; simpl;
    try reflexivity.
  - destruct (Z.ltb_spec (c + 1) tauMax); [lia | reflexivity].
  - destruct (Z.ltb_spec (c + 1) tauMax); [lia | reflexivity].
  - destruct (Z.ltb_spec (c + 1) tauMax); simpl; [|reflexivity].
    destruct (jslt (aget cmndf (c + 1)) (aget cmndf c)); [|reflexivity].
    apply IH; lia.
Qed.

Lemma descend_valley (tauMax : Z) (fuel : nat) (c : Z) :
  (Z.to_nat (tauMax - c) <= fuel)%nat -> c < tauMax ->
  Spec.valley_end cmndf tauMax c (descend fuel cmndf tauMax c).
Proof.
  revert c. induction fuel as [|fuel IH]; intros c Hf Hc; [lia|].
  simpl. destruct (Z.ltb_spec (c + 1) tauMax) as [Hlt|Hge]; simpl.
  - destruct (jslt (aget cmndf (c + 1)) (aget cmndf c)) eqn:E.
    + destruct (IH (c + 1)) as (Hr & Hrun & Hend); [lia | lia |].
      repeat split; try lia; [|exact Hend].
      intros k Hk. destruct (Z.eq_dec k c) as [->|Hne]; [exact E|].
      apply Hrun. lia.
    + repeat split; try lia. intros _. exact E.
  - repeat split; try lia.
Qed.

(** The descent never leaves the region below a bound it started under. *)
Lemma descend_below (tauMax : Z) (fuel : nat) (c : Z) (bound : value) :
  jslt (aget cmndf c) bound = true ->
  jslt (aget cmndf (descend fuel cmndf tauMax c)) bound = true.
Proof.
  revert c. induction fuel as [|fuel IH]; intros c Hc; simpl; [exact Hc|].
  destruct (c + 1 <? tauMax); simpl; [|exact Hc].
  destruct (jslt (aget cmndf (c + 1)) (aget cmndf c)) eqn:E; [|exact Hc].
  apply IH. eapply jslt_trans; eauto.
Qed.

Lemma scan_none (threshold : number) (tauMax : Z) (n : nat) (tau : Z) :
  scan n cmndf threshold tauMax tau = None ->
  forall t, tau <= t < tau + Z.of_nat n ->
            jslt (aget cmndf t) (Some threshold) = false.
Proof.
  revert tau. induction n as [|n IH]; intros tau H t Ht; [lia|].
  simpl in H.
  destruct (jslt (aget cmndf tau) (Some threshold)) eqn:E; [discriminate|].
  destruct (Z.eq_dec t tau) as [->|Hne]; [exact E|].
  apply (IH (tau + 1)); [exact H | lia].
Qed.

Lemma scan_some (threshold : number) (tauMax : Z) (n : nat) (tau r : Z) :
  scan n cmndf threshold tauMax tau = Some r ->
  exists t0,
    tau <= t0 < tau + Z.of_nat n /\
    jslt (aget cmndf t0) (Some threshold) = true /\
    (forall t, tau <= t < t0 ->
               jslt (aget cmndf t) (Some threshold) = false) /\
    r = descend (Z.to_nat (tauMax - t0)) cmndf tauMax t0.
Proof.
  revert tau. induction n as [|n IH]; intros tau H; [discriminate|].
  simpl in H.
  destruct (jslt (aget cmndf tau) (Some threshold)) eqn:E.
  - exists tau. injection H as <-.
    repeat split; try lia; auto; intros; lia.
  - destruct (IH _ H) as (t0 & Ht0 & Hb & Hfirst & Hr).
    exists t0. repeat split; try lia; auto.
    intros t Ht. destruct (Z.eq_dec t tau) as [->|Hne]; [exact E|].
    apply Hfirst. lia.
Qed.

Lemma findGlobalMinIndex_min (start end_ : Z) :
  start < end_ ->
  Spec.global_min_index cmndf start end_
    (findGlobalMinIndex cmndf start end_).
Proof.
  intros Hse. unfold findGlobalMinIndex.
  pose (P := fun (i : Z) (st : value * Z) =>
               fst st = aget cmndf (snd st) /\
               start <= snd st < i /\
               (forall k, start <= k < i ->
                          jslt (aget cmndf k) (fst st) = false) /\
               (forall k, start <= k < snd st ->
                          jsle (aget cmndf k) (fst st) = false)).
  assert (G : P end_ (for_loop (start + 1) end_ (min_step cmndf)
                        (aget cmndf start, start))).
  { apply for_loop_ind.
    - lia.
    - unfold P; simpl. repeat split; try lia.
      intros k Hk. replace k with start by lia. apply jslt_irrefl.
    - intros i [mv mi] Hi (Hv & Hmi & Hall & Hbefore).
      simpl in Hv, Hmi, Hall, Hbefore. unfold min_step.
      destruct (jslt (aget cmndf i) mv) eqn:E; unfold P; simpl.
      + repeat split; try lia.
        * intros k Hk. destruct (Z.eq_dec k i) as [->|Hne];
            [apply jslt_irrefl|].
          destruct (jslt (aget cmndf k) (aget cmndf i)) eqn:Ek; auto.
          rewrite <- (Hall k) by lia. symmetry.
          eapply jslt_trans; eauto.
        * intros k Hk.
          destruct (jsle (aget cmndf k) (aget cmndf i)) eqn:Ek; auto.
          rewrite <- (Hall k) by lia. symmetry.
          eapply jsle_jslt_trans; eauto.
      + repeat split; try lia; auto.
        intros k Hk. destruct (Z.eq_dec k i) as [->|Hne]; [exact E|].
        apply Hall. lia. }
  destruct G as (Hv & Hmi & Hall & Hbefore).
  rewrite Hv in Hall, Hbefore. repeat split; try lia; auto.
Qed.

Lemma global_min_least (start end_ r : Z) :
  Spec.all_numbers cmndf start end_ ->
  Spec.global_min_index cmndf start end_ r ->
  Spec.least_index cmndf start end_ r.
Proof.
  intros Hnum (Hr & Hall & Hbefore).
  destruct (Hnum r Hr) as (xr & Er & Nr).
  repeat split; try lia.
  - intros k Hk. destruct (Hnum k Hk) as (xk & Ek & Nk).
    specialize (Hall k Hk). rewrite Ek, Er in *.
    unfold jslt, jsle in *; simpl in *. now apply not_flt_fle.
  - intros k Hk. destruct (Hnum k) as (xk & Ek & Nk); [lia|].
    specialize (Hbefore k Hk). rewrite Ek, Er in *.
    unfold jslt, jsle in *; simpl in *. now apply not_fle_flt.
Qed.

End Search.

(* ================================================================== *)
(** * The claims about the curve and the search *)

(** The curve computeCMNDF returns when some lag is valid. *)
Lemma computeCMNDF_curve (frame : F32) (tauMin tauMax : Z) :
  Z.max 1 tauMin <= Z.min tauMax (len frame - 1) ->
  exists cmndf,
    computeCMNDF frame tauMin tauMax = Some cmndf /\
    len cmndf = Z.min tauMax (len frame - 1) + 1 /\
    aget cmndf 0 = Some one /\
    forall tau, 1 <= tau <= Z.min tauMax (len frame - 1) ->
                aget cmndf tau = Some (Spec.cmndf_at frame tau).
Proof.
  intros H. unfold computeCMNDF.
  set (maxTau := Z.min tauMax (len frame - 1)) in *.
  assert (Hpos : 1 <= maxTau) by lia.
  destruct (Z.ltb_spec (maxTau + 1) 0); [lia|].
  destruct (Z.ltb_spec maxTau (Z.max 1 tauMin)); [lia|].
  destruct (fill_df_inv frame maxTau Hpos) as [_ Hdf].
  destruct (cmndf_loop_inv frame maxTau Hpos _ Hdf) as (Hlen & Hzero & Hget).
  eexists. split; [reflexivity|]. split; [exact Hlen|]. split; [exact Hzero|].
  intros tau Htau. apply Hget. lia.
Qed.

(** C5.  For a frame with at least one valid lag, that is
    max(1, tauMin) <= min(tauMax, length - 1), computeCMNDF returns a curve
    of min(tauMax, length - 1) + 1 values with cmndf[0] = 1 and, for every
    lag tau from 1 to the clamped maximum, cmndf[tau] = 1 when the running
    sum d(1) + ... + d(tau) is zero and d(tau) * tau / (running sum)
    otherwise.  The values d(tau) are those stored in the binary32 array
    [df], and the quotient is stored in the binary32 array [cmndf]. *)
Theorem computeCMNDF_values (frame : F32) (tauMin tauMax : Z) :
  Z.max 1 tauMin <= Z.min tauMax (len frame - 1) ->
  exists cmndf,
    computeCMNDF frame tauMin tauMax = Some cmndf /\
    len cmndf = Z.min tauMax (len frame - 1) + 1 /\
    aget cmndf 0 = Some one /\
    forall tau, 1 <= tau <= Z.min tauMax (len frame - 1) ->
      let cumulative := Spec.running_sum frame (Z.to_nat tau) in
      (feq cumulative zero = true -> aget cmndf tau = Some one) /\
      (feq cumulative zero = false ->
       aget cmndf tau =
         Some (fround (fdiv (fmul (Spec.d frame tau) (ofZ tau)) cumulative))).
Proof.
  intros H.
  destruct (computeCMNDF_curve frame tauMin tauMax H)
    as (cmndf & Hc & Hlen & Hzero & Hget).
  exists cmndf. repeat split; auto.
  - intros E. rewrite (Hget tau) by lia. unfold Spec.cmndf_at. now rewrite E.
  - intros E. rewrite (Hget tau) by lia. unfold Spec.cmndf_at. now rewrite E.
Qed.

Lemma computeCMNDF_values_witness :
  Z.max 1 0 <= Z.min 3 (len Samples.square12 - 1) /\
  exists cmndf,
    computeCMNDF Samples.square12 0 3 = Some cmndf /\
    len cmndf = Z.min 3 (len Samples.square12 - 1) + 1 /\
    aget cmndf 0 = Some one /\
    forall tau, 1 <= tau <= Z.min 3 (len Samples.square12 - 1) ->
      let cumulative := Spec.running_sum Samples.square12 (Z.to_nat tau) in
      (feq cumulative zero = true -> aget cmndf tau = Some one) /\
      (feq cumulative zero = false ->
       aget cmndf tau =
         Some (fround (fdiv (fmul (Spec.d Samples.square12 tau) (ofZ tau))
                            cumulative))).
Proof.
  assert (H : Z.max 1 0 <= Z.min 3 (len Samples.square12 - 1))
    by (vm_compute; discriminate).
  split; [exact H | exact (computeCMNDF_values Samples.square12 0 3 H)].
Defined.

(** C4.  Over a non-empty range tauMin <= tau < tauMax, findBestTau
    returns the end of the strictly decreasing run that starts at the first
    lag whose value is below the threshold; and if no value of the range is
    below the threshold, it returns the index of the minimum of the curve
    over the range (the first one on ties).  Comparisons are those of the
    language; on a curve of proper numbers the minimum is the least value
    in the usual sense. *)
Theorem findBestTau_spec (cmndf : F32) (threshold : number)
        (tauMin tauMax : Z) :
  tauMin < tauMax ->
  let r := findBestTau cmndf threshold tauMin tauMax in
  (forall t0, Spec.first_below cmndf threshold tauMin tauMax t0 ->
              Spec.valley_end cmndf tauMax t0 r) /\
  (Spec.none_below cmndf threshold tauMin tauMax ->
   Spec.global_min_index cmndf tauMin tauMax r /\
   (Spec.all_numbers cmndf tauMin tauMax ->
    Spec.least_index cmndf tauMin tauMax r)).
Proof.
  intros Hne r. subst r. unfold findBestTau.
  destruct (scan (Z.to_nat (tauMax - tauMin)) cmndf threshold tauMax tauMin)
    as [r|] eqn:E.
  - apply scan_some in E. destruct E as (t1 & Ht1 & Hb1 & Hf1 & ->).
    split.
    + intros t0 (Ht0 & Hb0 & Hf0).
      assert (t0 = t1).
      { destruct (Z.lt_trichotomy t0 t1) as [Hlt|[Heq|Hgt]]; auto.
        - rewrite Hf1 in Hb0 by lia. discriminate.
        - rewrite Hf0 in Hb1 by lia. discriminate. }
      subst t1. apply descend_valley; lia.
    + intros Hnone. rewrite Hnone in Hb1 by lia. discriminate.
  - split.
    + intros t0 (Ht0 & Hb0 & _).
      rewrite (scan_none _ _ _ _ _ E t0) in Hb0 by lia. discriminate.
    + intros _. split.
      * apply findGlobalMinIndex_min; lia.
      * intros Hnum. apply global_min_least; auto.
        apply findGlobalMinIndex_min; lia.
Qed.

Lemma findBestTau_spec_witness :
  1 < 5 /\
  let r := findBestTau Samples.valley THRESHOLD 1 5 in
  (forall t0, Spec.first_below Samples.valley THRESHOLD 1 5 t0 ->
              Spec.valley_end Samples.valley 5 t0 r) /\
  (Spec.none_below Samples.valley THRESHOLD 1 5 ->
   Spec.global_min_index Samples.valley 1 5 r /\
   (Spec.all_numbers Samples.valley 1 5 ->
    Spec.least_index Samples.valley 1 5 r)).
Proof.
  assert (H : 1 < 5) by lia.
  split; [exact H | exact (findBestTau_spec Samples.valley THRESHOLD 1 5 H)].
Defined.

(** C10.  Whenever some value of the curve at a lag of [tauMin, tauMax)
    is below THRESHOLD = 0.1, the value at the lag findBestTau chooses is
    below 0.1 too; that value is the confidence of detectPitch, so every
    returned detection then has a confidence below 0.1. *)
Theorem confidence_below_threshold (waveform : F32) (sampleRate : number)
        (cmndf : F32) (t : Z) :
  computeCMNDF waveform (tauMin_of sampleRate) (tauMax_of sampleRate)
  = Some cmndf ->
  tauMin_of sampleRate <= t < tauMax_of sampleRate ->
  jslt (aget cmndf t) (Some THRESHOLD) = true ->
  jslt (aget cmndf (findBestTau cmndf THRESHOLD (tauMin_of sampleRate)
                      (tauMax_of sampleRate)))
       (Some THRESHOLD) = true /\
  forall d, detectPitch waveform sampleRate = Return (Some d) ->
            jslt (confidence d) (Some THRESHOLD) = true.
Proof.
  intros Hc Ht Hb.
  assert (G : jslt (aget cmndf
                      (findBestTau cmndf THRESHOLD (tauMin_of sampleRate)
                         (tauMax_of sampleRate)))
                   (Some THRESHOLD) = true).
  { unfold findBestTau.
    destruct (scan (Z.to_nat (tauMax_of sampleRate - tauMin_of sampleRate))
                cmndf THRESHOLD (tauMax_of sampleRate) (tauMin_of sampleRate))
      as [r|] eqn:E.
    - apply scan_some in E. destruct E as (t0 & _ & Hb0 & _ & ->).
      now apply descend_below.
    - rewrite (scan_none _ _ _ _ _ E t) in Hb by lia. discriminate. }
  split; [exact G|].
  intros d. unfold detectPitch. rewrite Hc.
  destruct (len waveform =? 0); [discriminate|].
  destruct (_ || _); [discriminate|].
  intros Hd. injection Hd as <-. exact G.
Qed.

Lemma confidence_below_threshold_witness :
  jslt (aget (Samples.curve Samples.square12 (ofZ 100))
          (findBestTau (Samples.curve Samples.square12 (ofZ 100)) THRESHOLD
             (tauMin_of (ofZ 100)) (tauMax_of (ofZ 100))))
       (Some THRESHOLD) = true /\
  forall d, detectPitch Samples.square12 (ofZ 100) = Return (Some d) ->
            jslt (confidence d) (Some THRESHOLD) = true.
Proof.
  apply (confidence_below_threshold Samples.square12 (ofZ 100)
           (Samples.curve Samples.square12 (ofZ 100)) 2).
  - vm_compute. reflexivity.
  - vm_compute. split; [discriminate | reflexivity].
  - vm_compute. reflexivity.
Defined.

(* ================================================================== *)
(** * Two exact operations on doubles *)

Section ExactOps.

Lemma div_eucl_pair (a b : Z) : Z.div_eucl a b = (a / b, a mod b).
Proof. unfold Z.div, Z.modulo. now destruct (Z.div_eucl a b). Qed.

(** A canonical double is normal (53 digits) or sits at the least
    exponent. *)
Lemma canonical_cases (m : positive) (e : Z) :
  bounded prec emax m e = true ->
  e <= 971 /\
  ((Z.pos (digits2_pos m) = 53 /\ -1074 < e) \/
   (Z.pos (digits2_pos m) <= 53 /\ e = -1074)).
Proof.
  unfold bounded, canonical_mantissa, fexp, emin, prec, emax.
  intros H. apply andb_prop in H. destruct H as [H1 H2].
  apply Z.eqb_eq in H1. apply Z.leb_le in H2. lia.
Qed.

Lemma round_exact (s : bool) (m : positive) (e : Z) :
  bounded prec emax m e = true ->
  binary_round_aux prec emax s (Z.pos m) e loc_Exact = S754_finite s m e.
Proof.
  intros H. pose proof (canonical_cases m e H) as [Hle Hc].
  unfold binary_round_aux, shr_fexp, prec, emax. simpl Zdigits2.
  match goal with
  | |- context [shr _ e ?n] =>
      assert (E : n = 0) by (unfold fexp, emin; lia); rewrite E
  end.
  cbn [shr shr_record_of_loc shr_m loc_of_shr_record round_nearest_even
       Zdigits2].
  rewrite E. cbn [shr shr_m].
  apply Z.leb_le in Hle. change (1024 - 53) with 971. now rewrite Hle.
Qed.

Lemma round_exact_shift (s : bool) (m : positive) (e : Z) :
  bounded prec emax m e = true -> -1074 < e ->
  binary_round_aux prec emax s (Z.pos m~0) (e - 1) loc_Exact
  = S754_finite s m e.
Proof.
  intros H He. pose proof (canonical_cases m e H) as [Hle Hc].
  unfold binary_round_aux, shr_fexp, prec, emax.
  cbn [Zdigits2 digits2_pos].
  match goal with
  | |- context [shr _ (e - 1) ?n] =>
      assert (E : n = 1) by (unfold fexp, emin; lia); rewrite E
  end.
  cbn [shr iter_pos shr_1 shr_record_of_loc shr_m shr_r shr_s orb
       loc_of_shr_record round_nearest_even Zdigits2].
  replace (e - 1 + 1) with e by lia.
  match goal with
  | |- context [shr _ e ?n] =>
      assert (E' : n = 0) by (unfold fexp, emin; lia); rewrite E'
  end.
  cbn [shr shr_m].
  apply Z.leb_le in Hle. change (1024 - 53) with 971. now rewrite Hle.
Qed.

Lemma div_core_one (m : positive) (e : Z) :
  bounded prec emax m e = true ->
  SFdiv_core_binary prec emax (Z.pos m) e 4503599627370496 (-52)
  = if -1074 <? e then (Z.pos m~0, e - 1, loc_Exact)
    else (Z.pos m, e, loc_Exact).
Proof.
  intros H. pose proof (canonical_cases m e H) as [Hle Hc].
  unfold SFdiv_core_binary, prec, emax.
  cbn [Zdigits2]. change (digits2_pos 4503599627370496) with 53%positive.
  destruct (Z.ltb_spec (-1074) e) as [He|He].
  - match goal with
    | |- context [Z.min ?a ?b] =>
        assert (E : Z.min a b = e - 1) by (unfold fexp, emin; lia);
        rewrite E
    end.
    replace (e - -52 - (e - 1)) with 53 by lia.
    rewrite div_eucl_pair, Z.shiftl_mul_pow2 by lia.
    replace (Z.pos m * 2 ^ 53) with (Z.pos m~0 * 4503599627370496) by lia.
    rewrite Z.div_mul, Z.mod_mul by lia. reflexivity.
  - match goal with
    | |- context [Z.min ?a ?b] =>
        assert (E : Z.min a b = e) by (unfold fexp, emin; lia);
        rewrite E
    end.
    replace (e - -52 - e) with 52 by lia.
    rewrite div_eucl_pair, Z.shiftl_mul_pow2 by lia.
    change (2 ^ 52) with 4503599627370496.
    rewrite Z.div_mul, Z.mod_mul by lia. reflexivity.
Qed.

(** [x / 1] is [x], for every double. *)
Lemma fdiv_one (x : number) : valid x = true -> fdiv x one = x.
Proof.
  destruct x as [s|s| |s m e]; intros H; try (destruct s; reflexivity);
    try reflexivity.
  unfold valid in H. simpl in H.
  change one with (S754_finite false 4503599627370496 (-52)).
  unfold fdiv, SFdiv. rewrite div_core_one by exact H.
  replace (xorb s false) with s by (destruct s; reflexivity).
  destruct (Z.ltb_spec (-1074) e) as [He|He].
  - now apply round_exact_shift.
  - now apply round_exact.
Qed.

End ExactOps.

(* ================================================================== *)
(** * The smoothing step *)

Section Smoothing.

(** A counted loop that reads a list front to back is a left fold. *)
Lemma for_loop_fold {A S} (rd : Z -> A) (f : S -> A -> S) (a : list A)
      (z : S) :
  (forall k x, nth_error a k = Some x -> rd (Z.of_nat k) = x) ->
  for_loop 0 (len a) (fun i st => f st (rd i)) z = fold_left f a z.
Proof.
  induction a as [|x a IH] using rev_ind; intros Hrd; [reflexivity|].
  unfold len. rewrite length_app, Nat2Z.inj_add. simpl length.
  change (Z.of_nat 1) with 1.
  rewrite for_loop_snoc by lia. fold (len a).
  rewrite IH, fold_left_app.
  - simpl. f_equal. apply Hrd. rewrite nth_error_app2 by lia.
    now rewrite Nat.sub_diag.
  - intros k y Hk. apply Hrd. rewrite nth_error_app1; auto.
    apply nth_error_Some. congruence.
Qed.

Lemma aget_nth_error (a : F32) (k : nat) (x : number) :
  nth_error a k = Some x -> toNumber (aget a (Z.of_nat k)) = x.
Proof.
  intros H. unfold aget.
  destruct (Z.ltb_spec (Z.of_nat k) 0); [lia|].
  now rewrite Nat2Z.id, H.
Qed.

Lemma average_mean (h : list number) :
  h <> [] -> App.average h = Spec.mean h.
Proof.
  intros Hne. unfold App.average, Spec.mean.
  destruct (Z.eqb_spec (len h) 0) as [E|_].
  - destruct h; [congruence | unfold len in E; simpl in E; lia].
  - f_equal.
    apply (for_loop_fold (fun i => toNumber (aget h i)) fadd).
    apply aget_nth_error.
Qed.

Lemma smooth_reference (queue : list number) (d : option detection) :
  App.smooth queue d = Spec.reference_update queue d.
Proof.
  unfold App.smooth, Spec.reference_update.
  destruct d as [d|]; [|reflexivity].
  unfold jslt; simpl toNumber.
  destruct (flt (toNumber (confidence d)) App.CONFIDENCE_THRESHOLD);
    [|reflexivity].
  unfold App.SMOOTHING_FRAMES, len.
  set (q := queue ++ [frequency d]).
  assert (Hq : q <> []) by (subst q; destruct queue; discriminate).
  destruct (Z.ltb_spec 3 (Z.of_nat (length q))) as [H|H];
    destruct (Nat.ltb_spec 3 (length q)) as [H'|H']; try lia.
  - destruct q as [|x [|y q']]; simpl in H; try lia.
    simpl tl. simpl skipn. f_equal. f_equal.
    apply average_mean. discriminate.
  - f_equal. f_equal. now apply average_mean.
Qed.

Lemma smooth_bound (queue : list number) (d : option detection) :
  (length queue <= 3)%nat ->
  (length (fst (App.smooth queue d)) <= 3)%nat.
Proof.
  intros Hq. unfold App.smooth.
  destruct d as [d|]; [|simpl; lia].
  destruct (jslt _ _); [|simpl; lia].
  unfold App.SMOOTHING_FRAMES, len.
  assert (Hl : length (queue ++ [frequency d]) = Datatypes.S (length queue))
    by (rewrite length_app; simpl; lia).
  destruct (Z.ltb_spec 3 (Z.of_nat (length (queue ++ [frequency d]))));
    simpl fst.
  - destruct (queue ++ [frequency d]); simpl in *; lia.
  - lia.
Qed.

Lemma run_bound (detections : list (option detection))
      (queue : list number) :
  (length queue <= 3)%nat ->
  (length (fst (App.run queue detections)) <= 3)%nat.
Proof.
  revert queue. induction detections as [|d rest IH]; intros queue Hq;
    [exact Hq|].
  simpl. pose proof (smooth_bound queue d Hq) as Hb.
  destruct (App.smooth queue d) as [h out]. simpl in Hb.
  specialize (IH h Hb). destruct (App.run h rest) as [h' outs].
  exact IH.
Qed.

(** After a cleared queue, a confident frame averages to itself. *)
Lemma smooth_fresh (f : number) (c : value) :
  valid f = true ->
  jslt c (Some App.CONFIDENCE_THRESHOLD) = true ->
  App.smooth [] (Some {| frequency := f; confidence := c |})
  = ([f], Some (match f with S754_zero true => zero | _ => f end)).
Proof.
  intros Hv Hc. unfold App.smooth. simpl confidence. rewrite Hc.
  simpl. f_equal. f_equal.
  unfold App.average, for_loop. simpl.
  change (binary_round prec emax false 1 0) with one.
  destruct f as [[|]|[|]| |s m e]; try reflexivity.
  now apply fdiv_one.
Qed.

End Smoothing.

(** C3.  From the start of a session, after any sequence of frames, the
    smoothing step of detectionLoop is the reference update: a detection
    with confidence below 0.15 has its frequency appended to the history,
    the oldest entry is dropped when the history then exceeds 3 entries (so
    it never holds more than 3), and the output is the mean of the history;
    no detection, or a confidence of 0.15 or more, clears the history and
    gives no output.  Confident detections of 100, 102, 98 give exactly 100
    on the third frame, a fourth of 110 gives (102 + 98 + 110) / 3, and
    after a cleared history a confident frame gives its own frequency. *)
Theorem smoothing_step_reference
        (detections : list (option detection)) (d : option detection) :
  let queue := fst (App.run [] detections) in
  App.smooth queue d = Spec.reference_update queue d /\
  (length queue <= 3)%nat /\
  (length (fst (App.smooth queue d)) <= 3)%nat /\
  (forall x,
      d = Some x ->
      flt (toNumber (confidence x)) App.CONFIDENCE_THRESHOLD = true ->
      let q := queue ++ [frequency x] in
      let q' := if (3 <? length q)%nat then skipn 1 q else q in
      App.smooth queue d = (q', Some (Spec.mean q'))) /\
  (d = None -> App.smooth queue d = ([], None)) /\
  (forall x,
      d = Some x ->
      fle App.CONFIDENCE_THRESHOLD (toNumber (confidence x)) = true ->
      App.smooth queue d = ([], None)) /\
  (forall c1 c2 c3 c4,
      jslt c1 (Some App.CONFIDENCE_THRESHOLD) = true ->
      jslt c2 (Some App.CONFIDENCE_THRESHOLD) = true ->
      jslt c3 (Some App.CONFIDENCE_THRESHOLD) = true ->
      jslt c4 (Some App.CONFIDENCE_THRESHOLD) = true ->
      snd (App.run []
             [Some {| frequency := ofZ 100; confidence := c1 |};
              Some {| frequency := ofZ 102; confidence := c2 |};
              Some {| frequency := ofZ 98; confidence := c3 |};
              Some {| frequency := ofZ 110; confidence := c4 |}])
      = [Some (ofZ 100); Some (ofZ 101); Some (ofZ 100);
         Some (fdiv (fadd (fadd (ofZ 102) (ofZ 98)) (ofZ 110)) (ofZ 3))]) /\
  (forall f c,
      App.smooth queue d = ([], None) ->
      valid f = true ->
      jslt c (Some App.CONFIDENCE_THRESHOLD) = true ->
      snd (App.smooth (fst (App.smooth queue d))
             (Some {| frequency := f; confidence := c |}))
      = Some (match f with S754_zero true => zero | _ => f end)).
Proof.
  intros queue.
  assert (Hq : (length queue <= 3)%nat)
    by (apply run_bound; simpl; lia).
  split; [apply smooth_reference|].
  split; [exact Hq|].
  split; [now apply smooth_bound|].
  split.
  { intros x -> Hc. rewrite smooth_reference. unfold Spec.reference_update.
    now rewrite Hc. }
  split; [intros ->; reflexivity|].
  split.
  { intros x -> Hc. unfold App.smooth, jslt. simpl toNumber.
    destruct (flt (toNumber (confidence x)) App.CONFIDENCE_THRESHOLD) eqn:E;
      [|reflexivity].
    apply flt_not_fle in E. congruence. }
  split.
  { intros c1 c2 c3 c4 H1 H2 H3 H4.
    unfold App.run, App.smooth. simpl confidence. simpl frequency.
    rewrite H1. simpl app. cbv beta iota zeta.
    change (App.SMOOTHING_FRAMES <? len [ofZ 100]) with false.
    cbv beta iota zeta. rewrite H2. simpl app. cbv beta iota zeta.
    change (App.SMOOTHING_FRAMES <? len [ofZ 100; ofZ 102]) with false.
    cbv beta iota zeta. rewrite H3. simpl app. cbv beta iota zeta.
    change (App.SMOOTHING_FRAMES <? len [ofZ 100; ofZ 102; ofZ 98])
      with false.
    cbv beta iota zeta. rewrite H4. vm_compute. reflexivity. }
  intros f c Hclear Hv Hc. rewrite Hclear. simpl fst.
  now rewrite smooth_fresh.
Qed.

Lemma smoothing_step_reference_witness :
  App.smooth
    (fst (App.run [] (map App.confident [ofZ 100; ofZ 102; ofZ 98])))
    (App.confident (ofZ 110))
  = ([ofZ 102; ofZ 98; ofZ 110],
     Some (Spec.mean [ofZ 102; ofZ 98; ofZ 110])).
Proof.
  destruct (smoothing_step_reference
              (map App.confident [ofZ 100; ofZ 102; ofZ 98])
              (App.confident (ofZ 110)))
    as (_ & _ & _ & H & _).
  apply (H {| frequency := ofZ 110; confidence := Some zero |}).
  - reflexivity.
  - vm_compute. reflexivity.
Defined.

(* ================================================================== *)
(** * The autocorrelation kernel *)

Section KernelFacts.

Context {T : Type}.
Variables (add sub mul : T -> T -> T) (zero two undef : T).

Lemma get_nth_error (a : list T) (k : nat) (x : T) :
  nth_error a k = Some x -> Kernel.get undef a (Z.of_nat k) = x.
Proof.
  intros H. unfold Kernel.get.
  destruct (Z.ltb_spec (Z.of_nat k) 0); [lia|].
  rewrite Nat2Z.id. now apply nth_error_nth.
Qed.

Lemma get_skipn (a : list T) (k : nat) (j : Z) :
  0 <= j ->
  Kernel.get undef (skipn k a) j = Kernel.get undef a (j + Z.of_nat k).
Proof.
  intros Hj. unfold Kernel.get.
  destruct (Z.ltb_spec j 0); [lia|].
  destruct (Z.ltb_spec (j + Z.of_nat k) 0); [lia|].
  rewrite nth_skipn. f_equal. lia.
Qed.

Lemma nth_error_combine {A B} (l1 : list A) (l2 : list B) (i : nat)
      (x : A) (y : B) :
  nth_error (combine l1 l2) i = Some (x, y) ->
  nth_error l1 i = Some x /\ nth_error l2 i = Some y.
Proof.
  revert l2 i. induction l1 as [|h1 t1 IH]; intros [|h2 t2] [|i] H;
    simpl in *; try discriminate.
  - injection H as -> ->. auto.
  - now apply IH.
Qed.

Lemma subarray_skipn (a : list T) (tau : Z) :
  0 <= tau <= len a ->
  Kernel.subarray a tau = skipn (Z.to_nat tau) a.
Proof.
  intros H. unfold Kernel.subarray.
  destruct (Z.ltb_spec tau 0); [lia|].
  now rewrite Z.min_l by lia.
Qed.

(** computeACF sums the products signal[i] * signal[i + lag] over the
    overlap of the signal with its shifted copy, front to back. *)
Lemma computeACF_overlap (a : list T) (tau : Z) :
  0 <= tau <= len a - 1 ->
  Kernel.computeACF add mul zero undef a tau
  = fold_left (fun acc p => add acc (mul (fst p) (snd p)))
              (combine a (skipn (Z.to_nat tau) a)) zero.
Proof.
  intros H. unfold Kernel.computeACF.
  destruct (Z.ltb_spec tau 0); [lia|].
  destruct (Z.ltb_spec (len a - 1) tau); [lia|]. simpl orb. cbv iota.
  assert (Hl : len a - tau = len (combine a (skipn (Z.to_nat tau) a))).
  { unfold len in *. rewrite length_combine, length_skipn. lia. }
  rewrite Hl.
  apply (for_loop_fold
           (fun i => (Kernel.get undef a i, Kernel.get undef a (i + tau)))
           (fun acc p => add acc (mul (fst p) (snd p)))).
  intros k [x y] Hk. apply nth_error_combine in Hk. destruct Hk as [Hx Hy].
  rewrite nth_error_skipn in Hy.
  rewrite (get_nth_error _ _ _ Hx).
  replace (Z.of_nat k + tau) with (Z.of_nat (Z.to_nat tau + k)) by lia.
  now rewrite (get_nth_error _ _ _ Hy).
Qed.

End KernelFacts.

Section ExactSums.

Local Open Scope Q_scope.

Lemma sum_nil (lo hi : Z) (g : Z -> Q) :
  (hi <= lo)%Z -> Exact.sum lo hi g = 0.
Proof. intros H. unfold Exact.sum. now rewrite for_loop_nil. Qed.

Lemma sum_snoc (lo hi : Z) (g : Z -> Q) :
  (lo <= hi)%Z -> Exact.sum lo (hi + 1) g = Exact.sum lo hi g + g hi.
Proof. intros H. unfold Exact.sum. now rewrite for_loop_snoc. Qed.

Lemma range_ind (lo : Z) (P : Z -> Prop) :
  P lo ->
  (forall hi, (lo <= hi)%Z -> P hi -> P (hi + 1)%Z) ->
  forall hi, (lo <= hi)%Z -> P hi.
Proof.
  intros H0 Hs hi Hle.
  replace hi with (lo + Z.of_nat (Z.to_nat (hi - lo)))%Z by lia.
  induction (Z.to_nat (hi - lo)) as [|n IH].
  - now replace (lo + Z.of_nat 0)%Z with lo by lia.
  - replace (lo + Z.of_nat (S n))%Z with (lo + Z.of_nat n + 1)%Z by lia.
    apply Hs; [lia | exact IH].
Qed.

Lemma sum_ext (lo hi : Z) (g h : Z -> Q) :
  (lo <= hi)%Z ->
  (forall i, (lo <= i < hi)%Z -> g i == h i) ->
  Exact.sum lo hi g == Exact.sum lo hi h.
Proof.
  intros Hle. revert hi Hle.
  apply (range_ind lo
           (fun hi => (forall i, (lo <= i < hi)%Z -> g i == h i) ->
                      Exact.sum lo hi g == Exact.sum lo hi h)).
  - intros _. rewrite !sum_nil by lia. reflexivity.
  - intros hi Hle IH Hgh. rewrite !sum_snoc by lia.
    rewrite IH by (intros; apply Hgh; lia).
    rewrite (Hgh hi) by lia. reflexivity.
Qed.

Lemma sum_split (lo mid hi : Z) (g : Z -> Q) :
  (lo <= mid)%Z -> (mid <= hi)%Z ->
  Exact.sum lo hi g == Exact.sum lo mid g + Exact.sum mid hi g.
Proof.
  intros Hlm. revert hi.
  apply (range_ind mid
           (fun hi => Exact.sum lo hi g
                      == Exact.sum lo mid g + Exact.sum mid hi g)).
  - rewrite (sum_nil mid mid) by lia. ring.
  - intros hi Hle IH. rewrite !sum_snoc by lia. rewrite IH. ring.
Qed.

Lemma sum_combination (lo hi : Z) (a b c : Z -> Q) :
  (lo <= hi)%Z ->
  Exact.sum lo hi (fun i => a i + b i - 2 * c i)
  == Exact.sum lo hi a + Exact.sum lo hi b - 2 * Exact.sum lo hi c.
Proof.
  intros Hle. revert hi Hle.
  apply (range_ind lo
           (fun hi => Exact.sum lo hi (fun i => a i + b i - 2 * c i)
                      == Exact.sum lo hi a + Exact.sum lo hi b
                         - 2 * Exact.sum lo hi c)).
  - rewrite !sum_nil by lia. ring.
  - intros hi Hle IH. rewrite !sum_snoc by lia. rewrite IH. ring.
Qed.

(** In exact arithmetic computeDF is the squared difference over the
    overlap plus the energy of the last [tau] samples. *)
Lemma exact_computeDF (frame : list Q) (tau : Z) :
  (1 <= tau <= len frame - 1)%Z ->
  Exact.computeDF frame tau
  == Exact.squaredDifference frame tau + Exact.tailEnergy frame tau.
Proof.
  intros H.
  set (n := len frame) in *.
  set (x := Kernel.get 0 frame).
  assert (Hlen : len (skipn (Z.to_nat tau) frame) = (n - tau)%Z).
  { unfold len in *. rewrite length_skipn. lia. }
  assert (E0 : Exact.computeACF frame 0
               = Exact.sum 0 n (fun i => x i * x (i + 0)%Z)).
  { unfold Exact.computeACF, Kernel.computeACF. fold n.
    destruct (Z.ltb_spec (n - 1) 0); [lia|]. simpl orb. cbv iota.
    now rewrite Z.sub_0_r. }
  assert (Es : Exact.computeACF (Kernel.subarray frame tau) 0
               = Exact.sum 0 (n - tau)
                   (fun i => Kernel.get 0 (skipn (Z.to_nat tau) frame) i
                             * Kernel.get 0 (skipn (Z.to_nat tau) frame)
                                 (i + 0)%Z)).
  { rewrite subarray_skipn by (fold n; lia).
    unfold Exact.computeACF, Kernel.computeACF. rewrite Hlen.
    destruct (Z.ltb_spec (n - tau - 1) 0); [lia|]. simpl orb. cbv iota.
    now rewrite Z.sub_0_r. }
  assert (Et : Exact.computeACF frame tau
               = Exact.sum 0 (n - tau) (fun i => x i * x (i + tau)%Z)).
  { unfold Exact.computeACF, Kernel.computeACF. fold n.
    destruct (Z.ltb_spec tau 0); [lia|].
    destruct (Z.ltb_spec (n - 1) tau); [lia|]. reflexivity. }
  unfold Exact.computeDF, Kernel.computeDF.
  fold Exact.computeACF. rewrite E0, Es, Et.
  unfold Exact.squaredDifference, Kernel.squaredDifference,
    Exact.tailEnergy, Kernel.tailEnergy.
  fold n. fold x.
  change (for_loop 0 (n - tau)
            (fun i acc => acc + (x i - x (i + tau)%Z) * (x i - x (i + tau)%Z))
            0)
    with (Exact.sum 0 (n - tau)
            (fun i => (x i - x (i + tau)%Z) * (x i - x (i + tau)%Z))).
  change (for_loop (n - tau) n (fun i acc => acc + x i * x i) 0)
    with (Exact.sum (n - tau) n (fun i => x i * x i)).
  rewrite (sum_ext 0 n _ (fun i => x i * x i))
    by (try lia; intros; now rewrite Z.add_0_r).
  rewrite (sum_ext 0 (n - tau) _
             (fun i => x (i + tau)%Z * x (i + tau)%Z)).
  2: lia.
  2: { intros i Hi. rewrite Z.add_0_r, get_skipn by lia.
       fold x. now rewrite Z2Nat.id by lia. }
  rewrite (sum_split 0 (n - tau) n) by lia.
  rewrite (sum_ext 0 (n - tau)
             (fun i => (x i - x (i + tau)%Z) * (x i - x (i + tau)%Z))
             (fun i => x i * x i + x (i + tau)%Z * x (i + tau)%Z
                       - 2 * (x i * x (i + tau)%Z)))
    by (try lia; intros; ring).
  rewrite sum_combination by lia.
  ring.
Qed.

End ExactSums.

(** C8.  For every frame and every lag tau from 1 to length - 1, computeDF
    returns ACF(frame, 0) + ACF(frame[tau:], 0) - 2 * ACF(frame, tau), where
    ACF(signal, lag) sums signal[i] * signal[i + lag] over the overlap of
    the signal with its shifted copy.  In exact arithmetic that value is
    the squared difference over the overlap, the sum of
    (frame[i] - frame[i + tau])^2, plus the energy of the last tau samples:
    ACF(frame, 0) runs over the whole frame, not only over the overlap. *)
Theorem computeDF_autocorrelation (frame : F32) (tau : Z) :
  1 <= tau <= len frame - 1 ->
  computeDF frame tau
  = fsub (fadd (Spec.ACF frame 0)
               (Spec.ACF (skipn (Z.to_nat tau) frame) 0))
         (fmul two (Spec.ACF frame (Z.to_nat tau))) /\
  forall samples : list Q,
    len samples = len frame ->
    (Exact.computeDF samples tau
     == Exact.squaredDifference samples tau + Exact.tailEnergy samples tau)%Q.
Proof.
  intros H. split.
  - unfold computeDF, Kernel.computeDF.
    rewrite subarray_skipn by lia.
    assert (Hlen : len (skipn (Z.to_nat tau) frame) = len frame - tau).
    { unfold len in *. rewrite length_skipn. lia. }
    rewrite !computeACF_overlap by lia.
    reflexivity.
  - intros samples Hs. apply exact_computeDF. lia.
Qed.

Lemma computeDF_autocorrelation_witness :
  1 <= 2 <= len Samples.square12 - 1 /\
  computeDF Samples.square12 2
  = fsub (fadd (Spec.ACF Samples.square12 0)
               (Spec.ACF (skipn (Z.to_nat 2) Samples.square12) 0))
         (fmul two (Spec.ACF Samples.square12 (Z.to_nat 2))).
Proof.
  assert (H : 1 <= 2 <= len Samples.square12 - 1)
    by (vm_compute; split; discriminate).
  split; [exact H|].
  exact (proj1 (computeDF_autocorrelation Samples.square12 2 H)).
Defined.

(** C8, as first stated, fails: on the frame (0, 1) at lag 1 computeDF
    gives 2, and the squared difference over the overlap is 1. *)
Lemma computeDF_not_squared_difference :
  1 <= 1 <= len [zero; one] - 1 /\
  computeDF [zero; one] 1 = ofZ 2 /\
  squaredDifference [zero; one] 1 = ofZ 1 /\
  computeDF [zero; one] 1 <> squaredDifference [zero; one] 1.
Proof.
  split; [vm_compute; split; discriminate|].
  split; [reflexivity|]. split; [reflexivity|].
  vm_compute. discriminate.
Qed.

(* ================================================================== *)
(** * refineTau *)

Lemma refineTau_boundary (cmndf : F32) (tau : Z) :
  tau < 1 \/ len cmndf <= tau + 1 -> refineTau cmndf tau = ofZ tau.
Proof.
  intros H. unfold refineTau.
  destruct (Z.ltb_spec tau 1); [reflexivity|].
  destruct (Z.leb_spec (len cmndf) (tau + 1)); [reflexivity | lia].
Qed.

Lemma refineTau_interior (cmndf : F32) (tau : Z) :
  1 <= tau -> tau + 1 < len cmndf ->
  exists a b c,
    aget cmndf (tau - 1) = Some a /\
    aget cmndf tau = Some b /\
    aget cmndf (tau + 1) = Some c /\
    refineTau cmndf tau
    = fadd (ofZ tau)
           (fmul half (fdiv (fsub a c) (fadd (fsub a (fmul two b)) c))).
Proof.
  intros H1 H2.
  destruct (aget_in_bounds cmndf (tau - 1)) as [a Ha]; [lia|].
  destruct (aget_in_bounds cmndf tau) as [b Hb]; [lia|].
  destruct (aget_in_bounds cmndf (tau + 1)) as [c Hc]; [lia|].
  exists a, b, c. repeat split; auto.
  unfold refineTau, numerator, denominator.
  destruct (Z.ltb_spec tau 1); [lia|].
  destruct (Z.leb_spec (len cmndf) (tau + 1)); [lia|].
  now rewrite Ha, Hb, Hc.
Qed.

Lemma refineTau_reads_in_bounds (cmndf : F32) (tau i : Z) :
  In i (Reads.refineTau_reads cmndf tau) -> Reads.in_bounds cmndf i.
Proof.
  unfold Reads.refineTau_reads, Reads.in_bounds.
  destruct (Z.ltb_spec tau 1); [intros []|].
  destruct (Z.leb_spec (len cmndf) (tau + 1)); [intros []|].
  simpl. intros [<-|[<-|[<-|[<-|[<-|[]]]]]]; lia.
Qed.

(** C9.  Whenever findBestTau chooses tauMin, refineTau reads no index
    outside the curve.  When tauMin is at an array boundary, tauMin < 1 or
    tauMin + 1 >= the length of the curve, it returns the integer lag
    tauMin and the frequency is sampleRate / tauMin.  Otherwise
    cmndf[tauMin - 1], cmndf[tauMin] and cmndf[tauMin + 1] all exist and
    the lag is interpolated through them, like any other lag. *)
Theorem refinement_at_tauMin (cmndf : F32) (threshold sampleRate : number)
        (tauMin tauMax : Z) :
  findBestTau cmndf threshold tauMin tauMax = tauMin ->
  let tau := findBestTau cmndf threshold tauMin tauMax in
  (forall i, In i (Reads.refineTau_reads cmndf tau) ->
             Reads.in_bounds cmndf i) /\
  (tauMin < 1 \/ len cmndf <= tauMin + 1 ->
   refineTau cmndf tau = ofZ tauMin /\
   fdiv sampleRate (refineTau cmndf tau) = fdiv sampleRate (ofZ tauMin)) /\
  (1 <= tauMin -> tauMin + 1 < len cmndf ->
   exists a b c,
     aget cmndf (tauMin - 1) = Some a /\
     aget cmndf tauMin = Some b /\
     aget cmndf (tauMin + 1) = Some c /\
     refineTau cmndf tau
     = fadd (ofZ tauMin)
         (fmul half (fdiv (fsub a c) (fadd (fsub a (fmul two b)) c)))).
Proof.
  intros E tau. subst tau. rewrite E.
  split; [intros i; apply refineTau_reads_in_bounds|].
  split.
  - intros H. rewrite refineTau_boundary by exact H. auto.
  - intros H1 H2. now apply refineTau_interior.
Qed.

Lemma refinement_at_tauMin_witness :
  findBestTau [one; one] THRESHOLD 1 2 = 1 /\
  refineTau [one; one] (findBestTau [one; one] THRESHOLD 1 2) = ofZ 1 /\
  fdiv (ofZ 5000) (refineTau [one; one] (findBestTau [one; one] THRESHOLD 1 2))
  = fdiv (ofZ 5000) (ofZ 1).
Proof.
  assert (H : findBestTau [one; one] THRESHOLD 1 2 = 1) by reflexivity.
  split; [exact H|].
  destruct (refinement_at_tauMin [one; one] THRESHOLD (ofZ 5000) 1 2 H)
    as (_ & Hb & _).
  apply Hb. right. vm_compute. discriminate.
Defined.

(** C9, as first stated, fails: on the frame (1, 1, 1, 1) at 5000 Hz the
    search chooses tauMin = 1, the refined lag is 0.5 rather than 1, and
    the frequency computed from it is not sampleRate / tauMin. *)
Lemma refinement_at_tauMin_interpolates :
  findBestTau (Samples.curve Samples.ones4 (ofZ 5000)) THRESHOLD
    (tauMin_of (ofZ 5000)) (tauMax_of (ofZ 5000))
  = tauMin_of (ofZ 5000) /\
  refineTau (Samples.curve Samples.ones4 (ofZ 5000)) (tauMin_of (ofZ 5000))
  = half /\
  refineTau (Samples.curve Samples.ones4 (ofZ 5000)) (tauMin_of (ofZ 5000))
  <> ofZ (tauMin_of (ofZ 5000)) /\
  fdiv (ofZ 5000)
    (refineTau (Samples.curve Samples.ones4 (ofZ 5000))
       (tauMin_of (ofZ 5000)))
  <> fdiv (ofZ 5000) (ofZ (tauMin_of (ofZ 5000))).
Proof.
  vm_compute. repeat split; discriminate.
Qed.

(** C2, at the failing input: on the flat curve (1, 1, 1) at lag 1 the
    lag is inside the array, the denominator is zero, and refineTau
    returns NaN instead of the integer lag. *)
Theorem refineTau_zero_denominator :
  1 <= 1 /\ 1 + 1 < len [one; one; one] /\
  feq (denominator [one; one; one] 1) zero = true /\
  refineTau [one; one; one] 1 = NaN /\
  refineTau [one; one; one] 1 <> ofZ 1.
Proof.
  vm_compute. repeat split; discriminate.
Qed.

(* ================================================================== *)
(** * Frames too short for the frequency floor *)

Section BeyondCurve.

Variable cmndf : F32.
Variable tauMin : Z.
Hypothesis beyond : len cmndf <= tauMin.

Lemma beyond_none (i : Z) : tauMin <= i -> aget cmndf i = None.
Proof. intros H. apply aget_out_of_bounds. lia. Qed.

Lemma beyond_scan (tauMax : Z) (n : nat) (tau : Z) :
  tauMin <= tau -> scan n cmndf THRESHOLD tauMax tau = None.
Proof.
  revert tau. induction n as [|n IH]; intros tau H; simpl; [reflexivity|].
  rewrite beyond_none by lia. simpl. apply IH. lia.
Qed.

Lemma beyond_findBestTau (tauMax : Z) :
  findBestTau cmndf THRESHOLD tauMin tauMax = tauMin.
Proof.
  unfold findBestTau. rewrite beyond_scan by lia. unfold findGlobalMinIndex.
  destruct (Z.le_gt_cases (tauMin + 1) tauMax) as [Hle|Hgt].
  - assert (G : for_loop (tauMin + 1) tauMax (min_step cmndf)
                  (aget cmndf tauMin, tauMin)
                = (aget cmndf tauMin, tauMin)).
    { apply (for_loop_ind _ (fun _ st => st = (aget cmndf tauMin, tauMin)));
        [lia | reflexivity |].
      intros i st Hi ->. unfold min_step.
      now rewrite (beyond_none i) by lia. }
    now rewrite G.
  - now rewrite for_loop_nil by lia.
Qed.

End BeyondCurve.

(** When tauMin is above the clamped tauMax, detectPitch does not throw;
    the curve is all zeros, the search and the refinement settle on tauMin
    outside it, and the call returns null only if sampleRate / tauMin
    leaves the range 27..5000, else a detection with an undefined
    confidence. *)
Lemma short_frame_outcome (waveform : F32) (sampleRate : number) :
  1 <= len waveform ->
  0 <= tauMax_of sampleRate ->
  Z.min (tauMax_of sampleRate) (len waveform - 1) < tauMin_of sampleRate ->
  detectPitch waveform sampleRate
  = if flt (fdiv sampleRate (ofZ (tauMin_of sampleRate))) MIN_FREQUENCY
       || flt MAX_FREQUENCY (fdiv sampleRate (ofZ (tauMin_of sampleRate)))
    then Return None
    else Return (Some {| frequency :=
                           fdiv sampleRate (ofZ (tauMin_of sampleRate));
                         confidence := None |}).
Proof.
  intros Hn Hmax Hshort. unfold detectPitch, computeCMNDF.
  set (tauMin := tauMin_of sampleRate) in *.
  set (tauMax := tauMax_of sampleRate) in *.
  set (maxTau := Z.min tauMax (len waveform - 1)) in *.
  destruct (Z.eqb_spec (len waveform) 0); [lia|].
  destruct (Z.ltb_spec (maxTau + 1) 0); [lia|].
  destruct (Z.ltb_spec maxTau (Z.max 1 tauMin)); [|lia].
  assert (Hlen : len (newF32 (maxTau + 1)) <= tauMin)
    by (rewrite len_newF32; lia).
  rewrite beyond_findBestTau by exact Hlen.
  rewrite refineTau_boundary by lia.
  now rewrite (beyond_none _ _ Hlen tauMin) by lia.
Qed.

(** C6, at the failing input: a frame of one sample at 10000 Hz has
    tauMin = 2 above the clamped tauMax = 0, and detectPitch returns a
    detection of 5000 Hz with an undefined confidence instead of null. *)
Theorem short_frame_detection :
  tauMin_of (ofZ 10000) = 2 /\
  Z.min (tauMax_of (ofZ 10000)) (len [one] - 1) = 0 /\
  computeCMNDF [one] (tauMin_of (ofZ 10000)) (tauMax_of (ofZ 10000))
  = Some [zero] /\
  detectPitch [one] (ofZ 10000)
  = Return (Some {| frequency := ofZ 5000; confidence := None |}).
Proof.
  vm_compute. repeat split.
Qed.

(* ================================================================== *)
(** * The reads of the search *)

Section ReadLogs.

Variable cmndf : F32.

Lemma descend_log_result (tauMax : Z) (fuel : nat) (c : Z) :
  fst (Reads.descend_log fuel cmndf tauMax c) = descend fuel cmndf tauMax c.
Proof.
  revert c. induction fuel as [|fuel IH]; intros c; simpl; [reflexivity|].
  destruct (c + 1 <? tauMax); simpl; [|reflexivity].
  destruct (jslt (aget cmndf (c + 1)) (aget cmndf c)); [|reflexivity].
  specialize (IH (c + 1)).
  destruct (Reads.descend_log fuel cmndf tauMax (c + 1)). exact IH.
Qed.

Lemma scan_log_result (threshold : number) (tauMax : Z) (n : nat) (tau : Z) :
  fst (Reads.scan_log n cmndf threshold tauMax tau)
  = scan n cmndf threshold tauMax tau.
Proof.
  revert tau. induction n as [|n IH]; intros tau; simpl; [reflexivity|].
  destruct (jslt (aget cmndf tau) (Some threshold)).
  - pose proof (descend_log_result tauMax (Z.to_nat (tauMax - tau)) tau) as H.
    destruct (Reads.descend_log _ cmndf tauMax tau). simpl in *. now f_equal.
  - specialize (IH (tau + 1)).
    destruct (Reads.scan_log n cmndf threshold tauMax (tau + 1)). exact IH.
Qed.

Lemma min_log_result (start end_ : Z) :
  fst (Reads.findGlobalMinIndex_log cmndf start end_)
  = findGlobalMinIndex cmndf start end_.
Proof.
  unfold Reads.findGlobalMinIndex_log, findGlobalMinIndex.
  assert (G : fst (for_loop (start + 1) end_ (Reads.min_step_log cmndf)
                     (aget cmndf start, start, [start]))
              = for_loop (start + 1) end_ (min_step cmndf)
                  (aget cmndf start, start)).
  { destruct (Z.le_gt_cases (start + 1) end_) as [Hle|Hgt].
    - revert end_ Hle.
      apply (range_ind (start + 1)
               (fun hi =>
                  fst (for_loop (start + 1) hi (Reads.min_step_log cmndf)
                         (aget cmndf start, start, [start]))
                  = for_loop (start + 1) hi (min_step cmndf)
                      (aget cmndf start, start))).
      + now rewrite !for_loop_nil by lia.
      + intros hi Hle IH. rewrite !for_loop_snoc by lia. rewrite <- IH.
        destruct (for_loop (start + 1) hi (Reads.min_step_log cmndf)
                    (aget cmndf start, start, [start])).
        reflexivity.
    - now rewrite !for_loop_nil by lia. }
  rewrite <- G.
  destruct (for_loop (start + 1) end_ (Reads.min_step_log cmndf)
              (aget cmndf start, start, [start])).
  reflexivity.
Qed.

(** The logged search returns what findBestTau returns. *)
Lemma findBestTau_log_result (threshold : number) (tauMin tauMax : Z) :
  fst (Reads.findBestTau_log cmndf threshold tauMin tauMax)
  = findBestTau cmndf threshold tauMin tauMax.
Proof.
  unfold Reads.findBestTau_log, findBestTau.
  rewrite <- scan_log_result.
  destruct (Reads.scan_log (Z.to_nat (tauMax - tauMin)) cmndf threshold
              tauMax tauMin) as [[r|] l]; simpl; [reflexivity|].
  rewrite <- min_log_result.
  destruct (Reads.findGlobalMinIndex_log cmndf tauMin tauMax). reflexivity.
Qed.





End ReadLogs.

(** C7, at the failing input: on the frame (1, 0) at 100 Hz the lag range
    is tauMin = 0, tauMax = 3, the clamped tauMax is 1 and the curve has 2
    values; the search runs to the unclamped tauMax and reads index 2,
    outside the curve, in the threshold scan and again in the
    global-minimum fallback. *)
Theorem search_reads_past_curve :
  tauMin_of (ofZ 100) = 0 /\
  tauMax_of (ofZ 100) = 3 /\
  Z.min (tauMax_of (ofZ 100)) (len [one; zero] - 1) = 1 /\
  computeCMNDF [one; zero] (tauMin_of (ofZ 100)) (tauMax_of (ofZ 100))
  = Some [one; one] /\
  Reads.findBestTau_log [one; one] THRESHOLD (tauMin_of (ofZ 100))
    (tauMax_of (ofZ 100))
  = (0, [0; 1; 2; 0; 1; 2]) /\
  ~ Reads.in_bounds [one; one] 2.
Proof.
  repeat split; try reflexivity.
  unfold Reads.in_bounds. vm_compute. intros [_ H]. discriminate.
Qed.

(* ================================================================== *)
(** * Silence *)

Section Silence.

Variable frame : F32.
Hypothesis silent : forall x, In x frame -> x = zero.

Lemma In_skipn (k : nat) (x : number) : In x (skipn k frame) -> In x frame.
Proof.
  intros H. rewrite <- (firstn_skipn k frame). apply in_or_app. now right.
Qed.

Lemma get_silent (a : F32) (i : Z) :
  (forall x, In x a -> x = zero) -> 0 <= i < len a ->
  Kernel.get NaN a i = zero.
Proof.
  intros Ha Hi. unfold Kernel.get, len in *.
  destruct (Z.ltb_spec i 0); [lia|].
  apply Ha. apply nth_In. lia.
Qed.

Lemma computeACF_silent (a : F32) (tau : Z) :
  (forall x, In x a -> x = zero) -> computeACF a tau = zero.
Proof.
  intros Ha. unfold computeACF, Kernel.computeACF.
  destruct (Z.ltb_spec tau 0); [reflexivity|].
  destruct (Z.ltb_spec (len a - 1) tau); [reflexivity|]. simpl orb.
  cbv iota.
  apply (for_loop_ind _ (fun _ acf => acf = zero)); [lia | reflexivity |].
  intros i acf Hi ->.
  rewrite !get_silent by (auto; lia). reflexivity.
Qed.

Lemma computeDF_silent (tau : Z) : computeDF frame tau = zero.
Proof.
  unfold computeDF, Kernel.computeDF.
  fold computeACF.
  rewrite !computeACF_silent; auto.
  unfold Kernel.subarray. intros x Hx. apply In_skipn in Hx. auto.
Qed.

Lemma running_sum_silent (k : nat) : Spec.running_sum frame k = zero.
Proof.
  induction k as [|k IH]; [reflexivity|].
  change (Spec.running_sum frame (S k))
    with (fadd (Spec.running_sum frame k) (Spec.d frame (Z.of_nat (S k)))).
  rewrite IH. unfold Spec.d. now rewrite computeDF_silent.
Qed.

(** On silence every value of the curve is 1. *)
Lemma computeCMNDF_silent (tauMin tauMax : Z) :
  Z.max 1 tauMin <= Z.min tauMax (len frame - 1) ->
  exists cmndf,
    computeCMNDF frame tauMin tauMax = Some cmndf /\
    len cmndf = Z.min tauMax (len frame - 1) + 1 /\
    forall tau, 0 <= tau < len cmndf -> aget cmndf tau = Some one.
Proof.
  intros H.
  destruct (computeCMNDF_curve frame tauMin tauMax H)
    as (cmndf & Hc & Hlen & H0 & Hget).
  exists cmndf. repeat split; auto.
  intros tau Htau. destruct (Z.eq_dec tau 0) as [->|Hne]; [exact H0|].
  rewrite (Hget tau) by lia. unfold Spec.cmndf_at.
  now rewrite running_sum_silent.
Qed.

End Silence.

Section FlatCurve.

Variable cmndf : F32.
Hypothesis flat : forall tau, 0 <= tau < len cmndf -> aget cmndf tau = Some one.

Lemma flat_cases (i : Z) : aget cmndf i = Some one \/ aget cmndf i = None.
Proof.
  destruct (Z.lt_ge_cases i 0); [right; apply aget_out_of_bounds; lia|].
  destruct (Z.lt_ge_cases i (len cmndf)); [left; apply flat; lia|].
  right; apply aget_out_of_bounds; lia.
Qed.

Lemma flat_not_below (i : Z) : jslt (aget cmndf i) (Some THRESHOLD) = false.
Proof. destruct (flat_cases i) as [-> | ->]; reflexivity. Qed.

Lemma flat_not_less (i j : Z) : jslt (aget cmndf i) (aget cmndf j) = false.
Proof.
  destruct (flat_cases i) as [-> | ->], (flat_cases j) as [-> | ->];
    reflexivity.
Qed.

Lemma flat_scan (tauMax : Z) (n : nat) (tau : Z) :
  scan n cmndf THRESHOLD tauMax tau = None.
Proof.
  revert tau. induction n as [|n IH]; intros tau; simpl; [reflexivity|].
  now rewrite flat_not_below.
Qed.

(** On a flat curve the search falls back to tauMin. *)
Lemma flat_findBestTau (tauMin tauMax : Z) :
  findBestTau cmndf THRESHOLD tauMin tauMax = tauMin.
Proof.
  unfold findBestTau. rewrite flat_scan. unfold findGlobalMinIndex.
  destruct (Z.le_gt_cases (tauMin + 1) tauMax) as [Hle|Hgt].
  - assert (G : for_loop (tauMin + 1) tauMax (min_step cmndf)
                  (aget cmndf tauMin, tauMin)
                = (aget cmndf tauMin, tauMin)).
    { apply (for_loop_ind _ (fun _ st => st = (aget cmndf tauMin, tauMin)));
        [lia | reflexivity |].
      intros i st Hi ->. unfold min_step. now rewrite flat_not_less. }
    now rewrite G.
  - now rewrite for_loop_nil by lia.
Qed.

(** Inside a flat curve the interpolation divides 0 by 0. *)
Lemma flat_refineTau (tau : Z) :
  1 <= tau -> tau + 1 < len cmndf -> refineTau cmndf tau = NaN.
Proof.
  intros H1 H2.
  destruct (refineTau_interior cmndf tau H1 H2)
    as (a & b & c & Ha & Hb & Hc & ->).
  rewrite flat in Ha, Hb, Hc by lia.
  injection Ha as <-. injection Hb as <-. injection Hc as <-.
  change (fmul half (fdiv (fsub one one) (fadd (fsub one (fmul two one)) one)))
    with NaN.
  now destruct (ofZ tau).
Qed.

End FlatCurve.

(** C1, at the failing inputs: for a silent frame and a sample rate with
    tauMin >= 1 and tauMin + 1 <= min(tauMax, length - 1), every value of
    the curve is 1, the search falls back to tauMin, the interpolation
    divides 0 by 0, and detectPitch returns a detection whose frequency is
    NaN (with confidence 1) instead of null. *)
Theorem silence_detects_nan (n : nat) (sampleRate : number) :
  1 <= tauMin_of sampleRate ->
  tauMin_of sampleRate + 1 <= Z.min (tauMax_of sampleRate) (Z.of_nat n - 1) ->
  detectPitch (Samples.zeros n) sampleRate
  = Return (Some {| frequency := NaN; confidence := Some one |}).
Proof.
  intros H1 H2.
  assert (Hs : forall x, In x (Samples.zeros n) -> x = zero)
    by (intros x Hx; now apply repeat_spec in Hx).
  assert (Hn : len (Samples.zeros n) = Z.of_nat n)
    by (unfold len, Samples.zeros; now rewrite repeat_length).
  destruct (computeCMNDF_silent (Samples.zeros n) Hs
              (tauMin_of sampleRate) (tauMax_of sampleRate))
    as (cmndf & Hc & Hlen & Hflat); [rewrite Hn; lia|].
  rewrite Hn in Hlen.
  unfold detectPitch. rewrite Hn.
  destruct (Z.eqb_spec (Z.of_nat n) 0); [lia|].
  rewrite Hc, flat_findBestTau by exact Hflat.
  rewrite flat_refineTau by (auto; lia).
  rewrite Hflat by lia.
  replace (fdiv sampleRate NaN) with NaN by (now destruct sampleRate).
  reflexivity.
Qed.

Lemma silence_detects_nan_witness :
  1 <= tauMin_of (ofZ 44100) /\
  tauMin_of (ofZ 44100) + 1
  <= Z.min (tauMax_of (ofZ 44100)) (Z.of_nat 4096 - 1) /\
  detectPitch (Samples.zeros 4096) (ofZ 44100)
  = Return (Some {| frequency := NaN; confidence := Some one |}).
Proof.
  assert (H1 : 1 <= tauMin_of (ofZ 44100)) by (vm_compute; discriminate).
  assert (H2 : tauMin_of (ofZ 44100) + 1
               <= Z.min (tauMax_of (ofZ 44100)) (Z.of_nat 4096 - 1))
    by (vm_compute; discriminate).
  split; [exact H1|]. split; [exact H2|].
  exact (silence_detects_nan 4096 (ofZ 44100) H1 H2).
Defined.

(* ================================================================== *)
(** * Further properties of the detector *)

Section LagRange.






Lemma descend_range (cmndf : F32) (tauMax : Z) (fuel : nat) (c : Z) :
  c < tauMax -> c <= descend fuel cmndf tauMax c < tauMax.
Proof.
  revert c. induction fuel as [|fuel IH]; intros c Hc; simpl; [lia|].
  destruct (Z.ltb_spec (c + 1) tauMax); simpl; [|lia].
  destruct (jslt _ _); [|lia].
  specialize (IH (c + 1)). lia.
Qed.

(** The lag findBestTau returns lies in a non-empty range, and is tauMin
    on an empty one. *)
Lemma findBestTau_range (cmndf : F32) (threshold : number)
      (tauMin tauMax : Z) :
  (tauMin < tauMax ->
   tauMin <= findBestTau cmndf threshold tauMin tauMax < tauMax) /\
  (tauMax <= tauMin -> findBestTau cmndf threshold tauMin tauMax = tauMin).
Proof.
  unfold findBestTau. split.
  - intros Hne.
    destruct (scan (Z.to_nat (tauMax - tauMin)) cmndf threshold tauMax tauMin)
      as [r|] eqn:E.
    + apply scan_some in E. destruct E as (t0 & Ht0 & _ & _ & ->).
      pose proof (descend_range cmndf tauMax (Z.to_nat (tauMax - t0)) t0).
      lia.
    + destruct (findGlobalMinIndex_min cmndf tauMin tauMax Hne) as [H _].
      exact H.
  - intros He. replace (Z.to_nat (tauMax - tauMin)) with O by lia. simpl.
    unfold findGlobalMinIndex. now rewrite for_loop_nil by lia.
Qed.

End LagRange.

(** X1.  Every detection detectPitch returns passed both comparisons of
    the range check: its frequency is not below 27 and not above 5000, so
    it is never an infinity, and unless it is NaN it lies between 27 and
    5000. *)
Theorem detection_frequency_range (waveform : F32) (sampleRate : number)
        (d : detection) :
  detectPitch waveform sampleRate = Return (Some d) ->
  flt (frequency d) MIN_FREQUENCY = false /\
  flt MAX_FREQUENCY (frequency d) = false /\
  (forall s, frequency d <> S754_infinity s) /\
  (is_nan (frequency d) = false ->
   fle MIN_FREQUENCY (frequency d) = true /\
   fle (frequency d) MAX_FREQUENCY = true).
Proof.
  unfold detectPitch.
  destruct (len waveform =? 0); [discriminate|].
  destruct (computeCMNDF _ _ _) as [cmndf|]; [|discriminate].
  set (f := fdiv sampleRate _).
  destruct (flt f MIN_FREQUENCY) eqn:E1; [discriminate|].
  destruct (flt MAX_FREQUENCY f) eqn:E2; [discriminate|].
  simpl. intros H. injection H as <-. simpl.
  repeat split; auto.
  - intros s Hs. rewrite Hs in E1, E2. destruct s; discriminate.
  - now apply not_flt_fle.
  - now apply not_flt_fle.
Qed.

Lemma detection_frequency_range_witness :
  flt (fdiv (ofZ 100) (refineTau (Samples.curve Samples.square12 (ofZ 100)) 2))
      MIN_FREQUENCY = false.
Proof.
  apply (detection_frequency_range Samples.square12 (ofZ 100)
           {| frequency :=
                fdiv (ofZ 100)
                  (refineTau (Samples.curve Samples.square12 (ofZ 100)) 2);
              confidence :=
                aget (Samples.curve Samples.square12 (ofZ 100)) 2 |}).
  vm_compute. reflexivity.
Defined.





(** X4.  The lag findBestTau returns is always inside a non-empty search
    range, tauMin <= tau < tauMax, whatever the curve holds (NaN and reads
    past its end included); on an empty range it returns tauMin. *)
Theorem chosen_lag_in_range (cmndf : F32) (threshold : number)
        (tauMin tauMax : Z) :
  (tauMin < tauMax ->
   tauMin <= findBestTau cmndf threshold tauMin tauMax < tauMax) /\
  (tauMax <= tauMin -> findBestTau cmndf threshold tauMin tauMax = tauMin).
Proof. apply findBestTau_range. Qed.

Lemma chosen_lag_in_range_witness :
  1 <= findBestTau Samples.valley THRESHOLD 1 5 < 5.
Proof.
  apply (proj1 (chosen_lag_in_range Samples.valley THRESHOLD 1 5)). lia.
Defined.

Section ExactSigns.

Local Open Scope Q_scope.

Lemma square_nonneg (x : Q) : 0 <= x * x.
Proof. destruct x as [n d]. unfold Qle, Qmult. simpl. nia. Qed.

Lemma sum_nonneg (lo hi : Z) (g : Z -> Q) :
  (forall i, 0 <= g i) -> 0 <= Exact.sum lo hi g.
Proof.
  intros Hg. destruct (Z.le_gt_cases lo hi) as [Hle|Hgt].
  - revert hi Hle.
    apply (range_ind lo (fun hi => 0 <= Exact.sum lo hi g)).
    + rewrite sum_nil by lia. apply Qle_refl.
    + intros hi Hle IH. rewrite sum_snoc by lia.
      specialize (Hg hi). lra.
  - rewrite sum_nil by lia. apply Qle_refl.
Qed.

(** The energy of any signal is non-negative. *)
Lemma exact_energy_nonneg (a : list Q) : 0 <= Exact.computeACF a 0.
Proof.
  unfold Exact.computeACF, Kernel.computeACF.
  destruct ((0 <? 0)%Z || (len a - 1 <? 0)%Z); [apply Qle_refl|].
  apply (sum_nonneg 0 (len a - 0)
           (fun x => Kernel.get 0 a x * Kernel.get 0 a (x + 0)%Z)).
  intros i. rewrite Z.add_0_r. apply square_nonneg.
Qed.

Lemma exact_lag_out_of_range (a : list Q) (tau : Z) :
  (tau < 0 \/ len a - 1 < tau)%Z -> Exact.computeACF a tau = 0.
Proof.
  intros H. unfold Exact.computeACF, Kernel.computeACF.
  destruct (Z.ltb_spec tau 0); [reflexivity|].
  destruct (Z.ltb_spec (len a - 1) tau); [reflexivity | lia].
Qed.

Lemma exact_computeDF_zero_lag (a : list Q) : Exact.computeDF a 0 == 0.
Proof.
  unfold Exact.computeDF, Kernel.computeDF, Kernel.subarray.
  change (0 <? 0)%Z with false. cbv iota.
  rewrite Z.min_l by (unfold len; lia). simpl skipn.
  fold Exact.computeACF. ring.
Qed.

End ExactSigns.

(** X5.  In exact arithmetic the difference function is never negative,
    at any lag (those outside 1..length - 1 included), and it is zero at
    lag 0, which is why computeCMNDF skips that lag. *)
Theorem exact_difference_sign (samples : list Q) (tau : Z) :
  (0 <= Exact.computeDF samples tau)%Q /\
  (Exact.computeDF samples 0 == 0)%Q.
Proof.
  split; [|apply exact_computeDF_zero_lag].
  destruct (Z.eq_dec tau 0) as [->|Hne].
  - rewrite exact_computeDF_zero_lag. apply Qle_refl.
  - destruct (Z_le_gt_dec 1 tau) as [H1|H1];
      [destruct (Z_le_gt_dec tau (len samples - 1)) as [H2|H2]|].
    + rewrite exact_computeDF by lia.
      assert (0 <= Exact.squaredDifference samples tau)%Q.
      { apply (sum_nonneg 0 (len samples - tau)
                 (fun i => (Kernel.get 0 samples i
                            - Kernel.get 0 samples (i + tau))
                           * (Kernel.get 0 samples i
                              - Kernel.get 0 samples (i + tau)))%Q).
        intros i. apply square_nonneg. }
      assert (0 <= Exact.tailEnergy samples tau)%Q.
      { apply (sum_nonneg (len samples - tau) (len samples)
                 (fun i => Kernel.get 0 samples i
                           * Kernel.get 0 samples i)%Q).
        intros i. apply square_nonneg. }
      lra.
    + unfold Exact.computeDF, Kernel.computeDF. fold Exact.computeACF.
      rewrite (exact_lag_out_of_range samples tau) by lia.
      pose proof (exact_energy_nonneg samples).
      pose proof (exact_energy_nonneg (Kernel.subarray samples tau)).
      lra.
    + unfold Exact.computeDF, Kernel.computeDF. fold Exact.computeACF.
      rewrite (exact_lag_out_of_range samples tau) by lia.
      pose proof (exact_energy_nonneg samples).
      pose proof (exact_energy_nonneg (Kernel.subarray samples tau)).
      lra.
Qed.

(* ================================================================== *)
(** * Silence, from the detector to the smoother *)

Section SilenceFrames.




End SilenceFrames.



(* ================================================================== *)
(** * The history over a whole trace *)

Section Traces.

Lemma lastn_short {A} (n : nat) (l : list A) :
  (length l <= n)%nat -> Trace.lastn n l = l.
Proof.
  intros H. unfold Trace.lastn.
  replace (length l - n)%nat with O by lia. reflexivity.
Qed.

Lemma lastn_length {A} (n : nat) (l : list A) :
  length (Trace.lastn n l) = Nat.min n (length l).
Proof. unfold Trace.lastn. rewrite length_skipn. lia. Qed.

(** Appending and dropping the oldest keeps the last three. *)
Lemma lastn_push (l : list number) (f : number) :
  (let q := Trace.lastn 3 l ++ [f] in
   if App.SMOOTHING_FRAMES <? len q then tl q else q)
  = Trace.lastn 3 (l ++ [f]).
Proof.
  cbv zeta. unfold len. rewrite length_app, lastn_length. simpl length.
  unfold App.SMOOTHING_FRAMES.
  destruct (Nat.le_gt_cases (length l) 2) as [Hs|Hl].
  - rewrite (lastn_short 3 l) by lia.
    rewrite (lastn_short 3 (l ++ [f])) by (rewrite length_app; simpl; lia).
    destruct (Z.ltb_spec 3 (Z.of_nat (Nat.min 3 (length l) + 1))); [lia|].
    reflexivity.
  - destruct (Z.ltb_spec 3 (Z.of_nat (Nat.min 3 (length l) + 1))); [|lia].
    unfold Trace.lastn. rewrite length_app. simpl length.
    replace (length l + 1 - 3)%nat with (length l - 3 + 1)%nat by lia.
    set (k := (length l - 3)%nat).
    assert (Hsplit : l = firstn k l ++ skipn k l)
      by (symmetry; apply firstn_skipn).
    assert (Hpre : length (firstn k l) = k)
      by (rewrite length_firstn; subst k; lia).
    set (pre := firstn k l) in *. set (w := skipn k l) in *.
    rewrite Hsplit, <- app_assoc, <- Hpre.
    rewrite skipn_app, skipn_all2 by lia.
    replace (length pre + 1 - length pre)%nat with 1%nat by lia.
    simpl app. now destruct (w ++ [f]).
Qed.

Lemma run_outputs_length (h : list number) (l : list (option detection)) :
  length (snd (App.run h l)) = length l.
Proof.
  revert h. induction l as [|x l IH]; intros h; [reflexivity|].
  simpl. destruct (App.smooth h x) as [h1 out].
  specialize (IH h1). destruct (App.run h1 l). simpl in *. now rewrite IH.
Qed.

Lemma run_snoc (h : list number) (l : list (option detection))
      (d : option detection) :
  fst (App.run h (l ++ [d])) = fst (App.smooth (fst (App.run h l)) d) /\
  last (snd (App.run h (l ++ [d]))) None
  = snd (App.smooth (fst (App.run h l)) d).
Proof.
  revert h. induction l as [|x l IH]; intros h.
  - simpl. destruct (App.smooth h d). split; reflexivity.
  - simpl. destruct (App.smooth h x) as [h1 out].
    specialize (IH h1).
    pose proof (run_outputs_length h1 (l ++ [d])) as Hlen.
    destruct (App.run h1 (l ++ [d])) as [h2 outs].
    destruct (App.run h1 l) as [h3 outs3]. simpl in *.
    destruct IH as [IH1 IH2]. split; [exact IH1|].
    destruct outs as [|o outs]; [|exact IH2].
    rewrite length_app in Hlen. simpl in Hlen. lia.
Qed.

Lemma run_app (h : list number) (l1 l2 : list (option detection)) :
  fst (App.run h (l1 ++ l2)) = fst (App.run (fst (App.run h l1)) l2).
Proof.
  revert h. induction l1 as [|d l1 IH]; intros h; [reflexivity|].
  simpl. destruct (App.smooth h d) as [h1 out].
  specialize (IH h1).
  destruct (App.run h1 (l1 ++ l2)) as [h2 outs].
  destruct (App.run h1 l1) as [h3 outs3]. exact IH.
Qed.

(** A frame that passes the gate outputs the mean of the history it
    leaves. *)
Lemma smooth_passes (h : list number) (c : detection) :
  Trace.passes c = true ->
  snd (App.smooth h (Some c)) = Some (Spec.mean (fst (App.smooth h (Some c))))
  /\ fst (App.smooth h (Some c))
     = (let q := h ++ [frequency c] in
        if App.SMOOTHING_FRAMES <? len q then tl q else q).
Proof.
  intros Hp. split.
  - rewrite smooth_reference. unfold Spec.reference_update.
    unfold Trace.passes, jslt in Hp. simpl toNumber in Hp. now rewrite Hp.
  - unfold App.smooth. unfold Trace.passes in Hp. now rewrite Hp.
Qed.

(** A run of confident frames from an empty history keeps the last three
    frequencies. *)
Lemma run_confident (cs : list detection) :
  Forall (fun d => Trace.passes d = true) cs ->
  fst (App.run [] (map Some cs)) = Trace.lastn 3 (map frequency cs).
Proof.
  induction cs as [|c cs IH] using rev_ind; intros Hall; [reflexivity|].
  apply Forall_app in Hall. destruct Hall as [Hcs Hc].
  inversion Hc as [|? ? Hp _]; subst.
  rewrite !map_app. simpl map.
  rewrite (proj1 (run_snoc [] (map Some cs) (Some c))), (IH Hcs).
  rewrite (proj2 (smooth_passes _ c Hp)). apply lastn_push.
Qed.

End Traces.

(** X7.  Over a whole session the history is a sliding window: after any
    frames that leave the history empty (none, or a last one rejected by
    the gate), followed by k frames that pass the gate, the history holds
    the last min(3, k) of their frequencies, in order, and the output of
    the last frame is the mean of exactly those. *)
Theorem history_is_last_three
        (before : list (option detection)) (cs : list detection) :
  fst (App.run [] before) = [] ->
  Forall (fun d => Trace.passes d = true) cs ->
  fst (App.run [] (before ++ map Some cs))
  = Trace.lastn 3 (map frequency cs) /\
  (cs <> [] ->
   last (snd (App.run [] (before ++ map Some cs))) None
   = Some (Spec.mean (Trace.lastn 3 (map frequency cs)))).
Proof.
  intros Hb Hall.
  assert (H1 : forall l, Forall (fun d => Trace.passes d = true) l ->
                         fst (App.run [] (before ++ map Some l))
                         = Trace.lastn 3 (map frequency l)).
  { intros l Hl. rewrite run_app, Hb. now apply run_confident. }
  split; [now apply H1|].
  intros Hne.
  destruct (exists_last Hne) as (cs' & c & ->).
  pose proof (H1 _ Hall) as Hfull.
  apply Forall_app in Hall. destruct Hall as [Hcs Hc].
  inversion Hc as [|? ? Hp _]; subst.
  rewrite map_app, app_assoc in *. simpl map in *.
  destruct (run_snoc [] (before ++ map Some cs') (Some c)) as [R1 R2].
  rewrite R2. rewrite R1 in Hfull.
  rewrite (proj1 (smooth_passes _ c Hp)), Hfull.
  now rewrite map_app.
Qed.

Lemma history_is_last_three_witness :
  fst (App.run []
         ([None] ++
          map Some
            [{| frequency := ofZ 100; confidence := Some zero |};
             {| frequency := ofZ 102; confidence := Some zero |};
             {| frequency := ofZ 98; confidence := Some zero |};
             {| frequency := ofZ 110; confidence := Some zero |}]))
  = Trace.lastn 3 [ofZ 100; ofZ 102; ofZ 98; ofZ 110].
Proof.
  apply (history_is_last_three [None]
           [{| frequency := ofZ 100; confidence := Some zero |};
            {| frequency := ofZ 102; confidence := Some zero |};
            {| frequency := ofZ 98; confidence := Some zero |};
            {| frequency := ofZ 110; confidence := Some zero |}]).
  - reflexivity.
  - repeat constructor.
Defined.

(* ================================================================== *)
(** * note-mapping.js *)

Section NoteNames.

Lemma same_eq (a b : number) : Trace.same a b = true -> a = b.
Proof.
  destruct a as [s|s| |s m e], b as [s'|s'| |s' m' e']; simpl;
    try discriminate; try reflexivity.
  - intros H. apply Bool.eqb_prop in H. now subst.
  - intros H. apply Bool.eqb_prop in H. now subst.
  - intros H. apply andb_prop in H. destruct H as [H He].
    apply andb_prop in H. destruct H as [Hs Hm].
    apply Bool.eqb_prop in Hs. apply Pos.eqb_eq in Hm. apply Z.eqb_eq in He.
    now subst.
Qed.

Lemma same_named_eq (a b : NoteMapping.named) :
  Trace.same_named a b = true ->
  NoteMapping.name a = NoteMapping.name b /\
  NoteMapping.octave a = NoteMapping.octave b.
Proof.
  unfold Trace.same_named. intros H. apply andb_prop in H.
  destruct H as [Hn Ho]. split; [|now apply same_eq].
  destruct (NoteMapping.name a), (NoteMapping.name b); try discriminate;
    [|reflexivity].
  apply String.eqb_eq in Hn. now subst.
Qed.

(** midiNoteToName on every integer from -128 to 127, by evaluation. *)
Lemma midiNoteToName_checked :
  forallb (fun k =>
             Trace.same_named
               (NoteMapping.midiNoteToName (ofZ (Z.of_nat k - 128)))
               (Trace.named_of (Z.of_nat k - 128)))
          (seq 0 256) = true.
Proof. vm_compute. reflexivity. Qed.

Lemma midiNoteToName_named_of (n : Z) :
  -128 <= n <= 127 ->
  NoteMapping.name (NoteMapping.midiNoteToName (ofZ n))
  = NoteMapping.name (Trace.named_of n) /\
  NoteMapping.octave (NoteMapping.midiNoteToName (ofZ n))
  = NoteMapping.octave (Trace.named_of n).
Proof.
  intros H. pose proof midiNoteToName_checked as Hc.
  rewrite forallb_forall in Hc.
  specialize (Hc (Z.to_nat (n + 128))).
  replace (Z.of_nat (Z.to_nat (n + 128)) - 128) with n in Hc by lia.
  apply same_named_eq, Hc, in_seq. lia.
Qed.

End NoteNames.

(** X8.  The reference frequency is always a positive finite number:
    setReferenceFrequency accepts exactly the positive finite numbers and
    throws on NaN, the infinities, the zeros and the negatives; an accepted
    value is what getReferenceFrequency returns next, a rejected one
    leaves it unchanged; so from the default 440, after any sequence of
    calls, it is finite and above 0. *)
Theorem reference_frequency_valid (calls : list number) :
  (forall f, NoteMapping.setReferenceFrequency f = Some f <->
             exists m e, f = S754_finite false m e) /\
  (forall f, NoteMapping.setReferenceFrequency f = None <->
             ~ exists m e, f = S754_finite false m e) /\
  (forall r f m e,
      f = S754_finite false m e ->
      NoteMapping.getReferenceFrequency (NoteMapping.afterSet r f) = f) /\
  (forall r f,
      NoteMapping.setReferenceFrequency f = None ->
      NoteMapping.getReferenceFrequency (NoteMapping.afterSet r f) = r) /\
  exists m e,
    fold_left NoteMapping.afterSet calls
              NoteMapping.DEFAULT_REFERENCE_FREQUENCY
    = S754_finite false m e.
Proof.
  assert (A : forall f, NoteMapping.setReferenceFrequency f = Some f <->
                        exists m e, f = S754_finite false m e).
  { intros f. split.
    - destruct f as [[|]|[|]| |[|] m e]; try discriminate. eauto.
    - intros (m & e & ->). reflexivity. }
  assert (B : forall f, NoteMapping.setReferenceFrequency f = None <->
                        ~ exists m e, f = S754_finite false m e).
  { intros f. split.
    - intros H (m & e & ->). discriminate.
    - intros H. destruct f as [[|]|[|]| |[|] m e]; try reflexivity.
      exfalso. apply H. eauto. }
  split; [exact A|]. split; [exact B|].
  split; [intros r f m e ->; reflexivity|].
  split; [intros r f H; unfold NoteMapping.afterSet; now rewrite H|].
  assert (G : forall r,
             (exists m e, r = S754_finite false m e) ->
             exists m e,
               fold_left NoteMapping.afterSet calls r = S754_finite false m e).
  { induction calls as [|f calls IH]; intros r Hr; [exact Hr|].
    simpl. apply IH. unfold NoteMapping.afterSet.
    destruct (NoteMapping.setReferenceFrequency f) as [g|] eqn:E; [|exact Hr].
    apply A. unfold NoteMapping.setReferenceFrequency in E |- *.
    destruct (negb (isFinite f) || fle f zero) eqn:Ef; [discriminate|].
    injection E as <-. now rewrite Ef. }
  apply G. exists 7740561859543040%positive, (-44). reflexivity.
Qed.

Lemma reference_frequency_valid_witness :
  NoteMapping.getReferenceFrequency
    (NoteMapping.afterSet NoteMapping.DEFAULT_REFERENCE_FREQUENCY (ofZ 442))
  = ofZ 442.
Proof.
  destruct (reference_frequency_valid []) as (_ & _ & H & _).
  apply (H _ _ 7775746231631872%positive (-44)). reflexivity.
Defined.

(** X9.  midiNoteToName on the MIDI notes 0 to 127: the name is the entry
    of NOTE_NAMES at note mod 12, always defined, and the octave is
    floor(note / 12) - 1, so that 12 * (octave + 1) + index gives the note
    back (69 is A4, 60 is C4, 0 is C-1).  On the notes -128 to -1 the
    remainder is negative and the name is undefined, except at the
    multiples of 12, where it is C. *)
Theorem midiNoteToName_table (n : Z) :
  (0 <= n <= 127 ->
   exists i s,
     Z.of_nat i = n mod 12 /\
     nth_error NoteMapping.NOTE_NAMES i = Some s /\
     NoteMapping.name (NoteMapping.midiNoteToName (ofZ n)) = Some s /\
     NoteMapping.octave (NoteMapping.midiNoteToName (ofZ n))
     = ofZ (n / 12 - 1) /\
     12 * (n / 12 - 1 + 1) + Z.of_nat i = n) /\
  (-128 <= n < 0 ->
   NoteMapping.name (NoteMapping.midiNoteToName (ofZ n))
   = (if n mod 12 =? 0 then Some "C"%string else None) /\
   NoteMapping.octave (NoteMapping.midiNoteToName (ofZ n))
   = ofZ (n / 12 - 1)).
Proof.
  split.
  - intros H. destruct (midiNoteToName_named_of n) as [Hn Ho]; [lia|].
    unfold Trace.named_of in Hn, Ho. simpl in Hn, Ho.
    destruct (Z.leb_spec 0 n); [|lia].
    pose proof (Z.mod_pos_bound n 12 ltac:(lia)) as Hm.
    destruct (nth_error NoteMapping.NOTE_NAMES (Z.to_nat (n mod 12)))
      as [s|] eqn:Es.
    + exists (Z.to_nat (n mod 12)), s. repeat split; auto; try lia.
      pose proof (Z.div_mod n 12 ltac:(lia)). lia.
    + apply nth_error_None in Es. simpl in Es. lia.
  - intros H. destruct (midiNoteToName_named_of n) as [Hn Ho]; [lia|].
    unfold Trace.named_of in Hn, Ho. simpl in Hn, Ho.
    destruct (Z.leb_spec 0 n); [lia|]. auto.
Qed.

Lemma midiNoteToName_table_witness :
  exists i s,
    Z.of_nat i = 69 mod 12 /\
    nth_error NoteMapping.NOTE_NAMES i = Some s /\
    NoteMapping.name (NoteMapping.midiNoteToName (ofZ 69)) = Some s /\
    NoteMapping.octave (NoteMapping.midiNoteToName (ofZ 69))
    = ofZ (69 / 12 - 1) /\
    12 * (69 / 12 - 1 + 1) + Z.of_nat i = 69.
Proof.
  apply (proj1 (midiNoteToName_table 69)). lia.
Defined.

Section Notes.

Variable log2 : number -> number.
Variable pow : number -> number -> number.

Lemma frequencyToNote_none (referenceFrequency frequency : number) :
  NoteMapping.frequencyToNote log2 pow referenceFrequency frequency = None
  <-> flt zero frequency = false.
Proof.
  unfold NoteMapping.frequencyToNote.
  destruct frequency as [[|]|[|]| |[|] m e]; simpl; split; intros H;
    try reflexivity; try discriminate.
Qed.

End Notes.

(** X10.  frequencyToNote returns null exactly when its argument is not
    above 0, that is on NaN, 0, -0 and every negative number, whatever the
    reference frequency; so the display never gets a note for such a
    frequency.  A returned note carries the frequency it was given. *)
Theorem frequencyToNote_guard
        (log2 : number -> number) (pow : number -> number -> number)
        (referenceFrequency frequency : number) :
  (NoteMapping.frequencyToNote log2 pow referenceFrequency frequency = None
   <-> flt zero frequency = false) /\
  (forall n,
      NoteMapping.frequencyToNote log2 pow referenceFrequency frequency
      = Some n ->
      flt zero frequency = true /\ NoteMapping.frequency n = frequency).
Proof.
  split; [apply frequencyToNote_none|].
  intros n H. split.
  - destruct (flt zero frequency) eqn:E; [reflexivity|].
    apply (frequencyToNote_none log2 pow referenceFrequency) in E.
    congruence.
  - unfold NoteMapping.frequencyToNote in H.
    destruct (_ || _); [discriminate|]. injection H as <-. reflexivity.
Qed.

Lemma frequencyToNote_guard_witness :
  NoteMapping.frequencyToNote (fun x => x) (fun x _ => x) (ofZ 440) NaN
  = None.
Proof.
  apply (proj1 (frequencyToNote_guard (fun x => x) (fun x _ => x)
                  (ofZ 440) NaN)).
  reflexivity.
Defined.

(* ================================================================== *)
(** * tuner-ui.js *)

Section Needle.

Lemma fle_not_flt (a b : number) : fle a b = true -> flt b a = false.
Proof.
  intros H. destruct (flt b a) eqn:E; [|reflexivity].
  apply flt_not_fle in E. congruence.
Qed.

Lemma fle_refl (a : number) : is_nan a = false -> fle a a = true.
Proof.
  intros H. apply not_flt_fle; auto.
  destruct (flt a a) eqn:E; [|reflexivity].
  pose proof (flt_fle _ _ E). pose proof (flt_not_fle _ _ E). congruence.
Qed.

Lemma flt_not_nan (a b : number) :
  flt a b = true -> is_nan a = false /\ is_nan b = false.
Proof. destruct a, b; simpl; try discriminate; auto. Qed.

Lemma fmin_finite (s : bool) (m : positive) (e : Z) (x : number) :
  is_nan x = false ->
  fmin (S754_finite s m e) x
  = if flt x (S754_finite s m e) then x else S754_finite s m e.
Proof.
  intros H. unfold fmin. change (is_nan (S754_finite s m e)) with false.
  rewrite H. destruct x; reflexivity.
Qed.

Lemma fmax_finite (s : bool) (m : positive) (e : Z) (x : number) :
  is_nan x = false ->
  fmax (S754_finite s m e) x
  = if flt (S754_finite s m e) x then x else S754_finite s m e.
Proof.
  intros H. unfold fmax. change (is_nan (S754_finite s m e)) with false.
  rewrite H. destruct x; reflexivity.
Qed.

(** The clamp of updateNeedle, case by case. *)
Lemma clampedCents_cases (cents : number) :
  is_nan cents = false ->
  (fle TunerUI.GAUGE_RANGE cents = true /\
   TunerUI.clampedCents cents = TunerUI.GAUGE_RANGE) \/
  (flt cents TunerUI.GAUGE_RANGE = true /\
   flt (fopp TunerUI.GAUGE_RANGE) cents = true /\
   TunerUI.clampedCents cents = cents) \/
  (fle cents (fopp TunerUI.GAUGE_RANGE) = true /\
   TunerUI.clampedCents cents = fopp TunerUI.GAUGE_RANGE).
Proof.
  intros Hn. unfold TunerUI.clampedCents.
  assert (G : exists m e, TunerUI.GAUGE_RANGE = S754_finite false m e)
    by (vm_compute; eauto).
  destruct G as (m & e & G). rewrite G.
  change (fopp (S754_finite false m e)) with (S754_finite true m e).
  rewrite (fmin_finite _ _ _ _ Hn).
  destruct (flt cents (S754_finite false m e)) eqn:E1.
  - rewrite (fmax_finite _ _ _ _ Hn).
    destruct (flt (S754_finite true m e) cents) eqn:E2.
    + right; left. repeat split; auto.
    + right; right. split; [|reflexivity].
      apply not_flt_fle; auto.
  - left. split; [apply not_flt_fle; auto|].
    rewrite fmax_finite by reflexivity.
    reflexivity.
Qed.

End Needle.

(** X11.  The clamp of updateNeedle: for every cents value other than NaN
    the clamped value lies between -50 and 50, and equals the argument when
    that lies strictly between; at 50 or more (+Infinity included) the
    needle is at exactly 100 percent, at -50 or less at exactly 0, and at 0
    cents at the centre, 50.  A NaN cents value gives a NaN position. *)
Theorem needle_clamp (cents : number) :
  (is_nan cents = false ->
   fle (fopp TunerUI.GAUGE_RANGE) (TunerUI.clampedCents cents) = true /\
   fle (TunerUI.clampedCents cents) TunerUI.GAUGE_RANGE = true) /\
  (flt (fopp TunerUI.GAUGE_RANGE) cents = true ->
   flt cents TunerUI.GAUGE_RANGE = true ->
   TunerUI.clampedCents cents = cents) /\
  (fle TunerUI.GAUGE_RANGE cents = true ->
   TunerUI.needlePercent cents = ofZ 100) /\
  (fle cents (fopp TunerUI.GAUGE_RANGE) = true ->
   TunerUI.needlePercent cents = ofZ 0) /\
  (feq cents zero = true -> TunerUI.needlePercent cents = ofZ 50) /\
  (is_nan cents = true -> TunerUI.needlePercent cents = NaN).
Proof.
  split; [|split; [|split; [|split; [|split]]]].
  - intros Hn.
    destruct (clampedCents_cases cents Hn)
      as [[H ->]|[(H1 & H2 & ->)|[H ->]]].
    + split; reflexivity.
    + split; now apply flt_fle.
    + split; reflexivity.
  - intros H1 H2. destruct (flt_not_nan _ _ H2) as [Hn _].
    destruct (clampedCents_cases cents Hn)
      as [[H _]|[(_ & _ & E)|[H _]]]; auto.
    + apply fle_not_flt in H. congruence.
    + apply fle_not_flt in H. congruence.
  - intros H.
    assert (Hn : is_nan cents = false) by (destruct cents; auto; discriminate).
    unfold TunerUI.needlePercent.
    destruct (clampedCents_cases cents Hn)
      as [[_ ->]|[(H1 & _)|[H1 _]]]; [reflexivity| |].
    + apply fle_not_flt in H. congruence.
    + exfalso.
      assert (flt cents TunerUI.GAUGE_RANGE = true)
        by (eapply fle_flt_trans; [exact H1 | reflexivity]).
      apply fle_not_flt in H. congruence.
  - intros H.
    assert (Hn : is_nan cents = false) by (destruct cents; auto; discriminate).
    unfold TunerUI.needlePercent.
    destruct (clampedCents_cases cents Hn)
      as [[H1 _]|[(_ & H1 & _)|[_ ->]]]; [| |reflexivity].
    + exfalso.
      assert (flt cents TunerUI.GAUGE_RANGE = true)
        by (eapply fle_flt_trans; [exact H | reflexivity]).
      apply fle_not_flt in H1. congruence.
    + apply fle_not_flt in H. congruence.
  - intros H.
    destruct cents as [s|s| |s m e]; try destruct s; try discriminate;
      reflexivity.
  - intros H. destruct cents; try discriminate. reflexivity.
Qed.

Lemma needle_clamp_witness :
  TunerUI.needlePercent (ofZ 75) = ofZ 100.
Proof.
  destruct (needle_clamp (ofZ 75)) as (_ & _ & H & _).
  apply H. reflexivity.
Defined.

Section NeedleClass.

Lemma updateUI_needle_class (n : NoteMapping.note) (d : TunerUI.display) :
  TunerUI.needle_className (TunerUI.updateUI (Some n) d)
  = ["gauge-needle"%string;
     if NoteMapping.inTune n then "in-tune"%string
     else if NoteMapping.almostInTune n then "out-of-tune"%string
          else "very-out-of-tune"%string].
Proof.
  unfold TunerUI.updateUI, TunerUI.updateNeedle.
  cbn [TunerUI.needle_className].
  destruct (NoteMapping.inTune n); [reflexivity|].
  destruct (NoteMapping.almostInTune n); reflexivity.
Qed.

Lemma frequencyToNote_flags
      (log2 : number -> number) (pow : number -> number -> number)
      (referenceFrequency frequency : number) (n : NoteMapping.note) :
  NoteMapping.frequencyToNote log2 pow referenceFrequency frequency = Some n ->
  NoteMapping.inTune n = flt (fabs (NoteMapping.cents n)) (ofZ 5) /\
  NoteMapping.almostInTune n = flt (fabs (NoteMapping.cents n)) (ofZ 20) /\
  NoteMapping.frequency n = frequency.
Proof.
  unfold NoteMapping.frequencyToNote.
  destruct (_ || _); [discriminate|]. intros H. injection H as <-.
  repeat split.
Qed.

End NeedleClass.

(** X12.  The needle colour follows the cents alone.  In every note
    frequencyToNote returns, inTune implies almostInTune; so updateUI
    leaves the needle with the class gauge-needle and exactly one more:
    in-tune when |cents| < 5, out-of-tune when |cents| < 20 but not < 5, and
    very-out-of-tune otherwise (a NaN cents value included). *)
Theorem needle_class_by_cents
        (log2 : number -> number) (pow : number -> number -> number)
        (referenceFrequency frequency : number) (n : NoteMapping.note)
        (d : TunerUI.display) :
  NoteMapping.frequencyToNote log2 pow referenceFrequency frequency = Some n ->
  (NoteMapping.inTune n = true -> NoteMapping.almostInTune n = true) /\
  TunerUI.needle_className (TunerUI.updateUI (Some n) d)
  = ["gauge-needle"%string;
     if flt (fabs (NoteMapping.cents n)) (ofZ 5) then "in-tune"%string
     else if flt (fabs (NoteMapping.cents n)) (ofZ 20)
          then "out-of-tune"%string
          else "very-out-of-tune"%string].
Proof.
  intros H. destruct (frequencyToNote_flags _ _ _ _ _ H) as (E5 & E20 & _).
  split.
  - rewrite E5, E20. intros L. eapply flt_trans; [exact L | reflexivity].
  - rewrite updateUI_needle_class, E5, E20. reflexivity.
Qed.

Lemma needle_class_by_cents_witness :
  option_map
    (fun n => TunerUI.needle_className (TunerUI.updateUI (Some n) Loop.blank))
    (NoteMapping.frequencyToNote (fun x => x) (fun x _ => x) (ofZ 440)
       (ofZ 440))
  = Some ["gauge-needle"%string; "in-tune"%string].
Proof.
  destruct (NoteMapping.frequencyToNote (fun x => x) (fun x _ => x) (ofZ 440)
              (ofZ 440)) as [n|] eqn:H.
  - pose proof (proj2 (needle_class_by_cents _ _ _ _ n Loop.blank H)) as E.
    vm_compute in H. injection H as <-.
    etransitivity; [exact (f_equal Some E)|]. vm_compute. reflexivity.
  - vm_compute in H. discriminate.
Defined.

(* ================================================================== *)
(** * detectionLoop, frame by frame *)

Section Frames.

Variable log2 : number -> number.
Variable pow : number -> number -> number.
Variable referenceFrequency : number.

Lemma smooth_cases (h : list number) (r : option detection) :
  App.smooth h r = ([], None) \/
  exists q, q <> [] /\ App.smooth h r = (q, Some (Spec.mean q)).
Proof.
  rewrite smooth_reference. unfold Spec.reference_update.
  destruct r as [d|]; [|now left].
  destruct (flt _ _); [|now left].
  right. eexists. split; [|reflexivity].
  destruct (h ++ [frequency d]) as [|x [|y [|z [|w t]]]] eqn:E; simpl;
    try discriminate.
  destruct h; discriminate.
Qed.

Lemma updateUI_note_text (n : NoteMapping.note) (d : TunerUI.display) :
  TunerUI.noteFrequency_textContent (TunerUI.updateUI (Some n) d)
  = TunerUI.FixedHz (NoteMapping.frequency n).
Proof. reflexivity. Qed.

Lemma detectionLoop_shows_mean (st : Loop.app) (ctx : Loop.audio)
      (nextId : number) :
  Trace.shows_mean st ->
  Trace.shows_mean
    (Loop.detectionLoop log2 pow referenceFrequency st ctx nextId).
Proof.
  intros H. unfold Loop.detectionLoop.
  destruct (Loop.isRunning st); simpl; [|exact H].
  destruct ctx as [|sampleRate waveform]; [exact H|].
  destruct (detectPitch waveform sampleRate) as [|r]; [exact H|].
  destruct (smooth_cases (Loop.frequencyHistory st) r)
    as [E|(q & Hq & E)]; rewrite E.
  - left. reflexivity.
  - destruct (NoteMapping.frequencyToNote log2 pow referenceFrequency
                (Spec.mean q)) as [n|] eqn:En.
    + right. cbn [Loop.frequencyHistory Loop.display]. split; [exact Hq|].
      rewrite updateUI_note_text. f_equal.
      now destruct (frequencyToNote_flags _ _ _ _ _ En) as (_ & _ & ->).
    + left. reflexivity.
Qed.

End Frames.



(** X14.  The number on the display is never stale.  From a blank
    display, after any sequence of frames of detectionLoop (frames without
    an audio context, frames whose detection throws and frames while
    stopped included), the display is blank or the frequency it shows is
    the mean of the current history, which is then not empty; in
    particular an empty history always comes with a blank display. *)
Theorem display_shows_mean
        (log2 : number -> number) (pow : number -> number -> number)
        (referenceFrequency : number) (st : Loop.app)
        (inputs : list (Loop.audio * number)) :
  Loop.display st = Loop.blank ->
  let st' := Loop.frames log2 pow referenceFrequency st inputs in
  (Loop.display st' = Loop.blank \/
   (Loop.frequencyHistory st' <> [] /\
    TunerUI.noteFrequency_textContent (Loop.display st')
    = TunerUI.FixedHz (Spec.mean (Loop.frequencyHistory st')))) /\
  (Loop.frequencyHistory st' = [] -> Loop.display st' = Loop.blank).
Proof.
  intros Hb st'.
  assert (G : Trace.shows_mean st').
  { subst st'. assert (H : Trace.shows_mean st) by (left; exact Hb).
    clear Hb. revert st H.
    induction inputs as [|[ctx id] rest IH]; intros st H; [exact H|].
    simpl. apply IH. now apply detectionLoop_shows_mean. }
  split; [exact G|].
  intros He. destruct G as [G|[G _]]; [exact G | contradiction].
Qed.

Lemma display_shows_mean_witness :
  Loop.display
    (Loop.frames (fun x => x) (fun x _ => x) (ofZ 440)
       {| Loop.isRunning := true;
          Loop.animationId := None;
          Loop.frequencyHistory := [ofZ 100];
          Loop.display := Loop.blank |}
       [(Loop.NoContext, ofZ 1);
        (Loop.Context (ofZ 44100) (Samples.zeros 4), ofZ 2)]) = Loop.blank.
Proof.
  refine (proj2 (display_shows_mean (fun x => x) (fun x _ => x) (ofZ 440)
                   {| Loop.isRunning := true;
                      Loop.animationId := None;
                      Loop.frequencyHistory := [ofZ 100];
                      Loop.display := Loop.blank |}
                   [(Loop.NoContext, ofZ 1);
                    (Loop.Context (ofZ 44100) (Samples.zeros 4), ofZ 2)]
                   eq_refl) _).
  vm_compute. reflexivity.
Defined.
